(** * The frame loop of react-three-fiber: [packages/fiber/src/core/loop.ts]

    A shallow embedding of the frame scheduler ([createSubs], [run],
    [update] and the three closures of [createLoop]: [loop], [invalidate],
    [advance]) together with the properties of its specification.

    Conventions of the embedding.
    - JavaScript objects that are mutated through references (root state
      objects, stage objects) live in heaps indexed by an identity; a
      reference is the identity.
    - Callbacks supplied by the outside (global effects, [useFrame]
      subscriptions, user stage callbacks) are opaque: they are identified by
      a number, and invoking one appends an event to the trace of the world.
      They are taken not to call back into the scheduler and not to throw.
    - Frame counts are integers ([Z]); timestamps and deltas are rationals
      ([Q]).
    - The module-level scratch variables [i], [subscribers], [subscription]
      and the closure variable [state] only hold the element a loop is
      currently looking at; they are not part of the state. *)

From Stdlib Require Import ZArith QArith Qminmax List Bool Lia String.
From stdpp Require Import base option functions.
Import ListNotations.

Local Open Scope Z_scope.

(** ** Data model *)

(** Identity of a root's state store ([root.store]); [store.getState()] is
    the heap lookup. *)
Definition StoreId := nat.
(** Identity of a [Stage] object. *)
Definition StageId := nat.
#[global] Instance StoreId_eq_dec : EqDecision StoreId := Nat.eq_dec.
#[global] Instance StageId_eq_dec : EqDecision StageId := Nat.eq_dec.
(** An outside callback, by identity. *)
Definition Callback := nat.
(** An opaque [THREE.XRFrame]. *)
Definition XRFrame := nat.

(** [RootState.frameloop]. *)
Inductive Frameloop := always | demand | never.

(** [RootState.render]: ['auto'] or the manual marker. *)
Inductive RenderMode := auto | manual.

(** The three module-level arrays [globalEffects], [globalAfterEffects] and
    [globalTailEffects]; a [Phase] stands for the reference to the array. *)
Inductive Phase := Pre | Post | Tail.

(** Records are mutable objects whose fields are read one by one: with
    primitive projections an object equals the record of its fields. *)
#[local] Set Primitive Projections.

(** The fields of [THREE.Clock]. *)
Record Clock := {
  autoStart : bool;
  startTime : Q;
  oldTime : Q;
  elapsedTime : Q;
  clockRunning : bool
}.

(** [THREE.Clock.getDelta] belongs to three.js and reads the wall clock: it
    is an interface of the embedding.  It reports a delta and may update the
    clock it is called on. *)
Class ClockOps := getDelta : Clock -> Q * Clock.

(** A [useFrame] subscription, [{ ref, store }]. *)
Record Subscription := {
  ref : Callback;
  store : StoreId
}.

(** [ref.current] of a stage entry: the two callbacks that [loop] creates, or
    a callback of the outside. *)
Inductive StageRef :=
| frameCallback
| renderCallback
| userCallback (cb : Callback).

(** Modelled from the spec: the class [Stage] (its file is not part of the
    sources); a stage holds an ordered list of (callback, owning store) pairs,
    [add(callback, owner)] appends to it. *)
Record StageEntry := {
  entryRef : StageRef;
  entryStore : StoreId
}.

Record Stage := {
  stageSubscribers : list StageEntry
}.

(** [state.internal]. *)
Record InternalState := {
  frames : Z;
  maxDelta : Q;
  active : bool;
  stages : list StageId;
  subscribers : list Subscription
}.

(** [state.gl.xr], when the renderer has one. *)
Record XRManager := {
  isPresenting : bool
}.

(** [state.gl]: the optional [xr] manager and whether [gl.render] is there. *)
Record Renderer := {
  xr : option XRManager;
  hasRender : bool
}.

Record RootState := {
  frameloop : Frameloop;
  render : RenderMode;
  internal : InternalState;
  clock : Clock;
  gl : Renderer;
  getStage : string -> option StageId
}.

(** A [Root]; only its [store] is used. *)
Record Root := {
  rootStore : StoreId
}.

(** What the outside observes, in order. *)
Inductive Event :=
| EvEffect (p : Phase) (cb : Callback) (timestamp : Q)
| EvSubscription (cb : Callback) (owner : StoreId) (delta : Q) (frame : option XRFrame)
| EvStage (cb : Callback) (owner : StoreId) (delta : Q) (frame : option XRFrame)
| EvRender (owner : StoreId).

(** The state of the module, of one [createLoop] instance, and of the host's
    animation-frame queue. *)
Record World := {
  (* module level *)
  globalEffects : list Callback;
  globalAfterEffects : list Callback;
  globalTailEffects : list Callback;
  (* the argument of createLoop: the values of the Map, in iteration order *)
  roots : list Root;
  (* heaps *)
  stores : StoreId -> RootState;
  stageHeap : StageId -> Stage;
  (* the closure of createLoop *)
  init : bool;
  running : bool;
  repeat : Z;
  frame : nat;
  (* requestAnimationFrame / cancelAnimationFrame *)
  rafPending : list nat;
  rafNext : nat;
  (* observations *)
  trace : list Event
}.

#[local] Unset Primitive Projections.

(** *** Field updates *)

Definition set_subs (p : Phase) (l : list Callback) (w : World) : World :=
  {| globalEffects := match p with Pre => l | _ => globalEffects w end;
     globalAfterEffects := match p with Post => l | _ => globalAfterEffects w end;
     globalTailEffects := match p with Tail => l | _ => globalTailEffects w end;
     roots := roots w; stores := stores w; stageHeap := stageHeap w;
     init := init w; running := running w; repeat := repeat w; frame := frame w;
     rafPending := rafPending w; rafNext := rafNext w; trace := trace w |}.

Definition set_stores (s : StoreId -> RootState) (w : World) : World :=
  {| globalEffects := globalEffects w; globalAfterEffects := globalAfterEffects w;
     globalTailEffects := globalTailEffects w;
     roots := roots w; stores := s; stageHeap := stageHeap w;
     init := init w; running := running w; repeat := repeat w; frame := frame w;
     rafPending := rafPending w; rafNext := rafNext w; trace := trace w |}.

Definition set_stageHeap (h : StageId -> Stage) (w : World) : World :=
  {| globalEffects := globalEffects w; globalAfterEffects := globalAfterEffects w;
     globalTailEffects := globalTailEffects w;
     roots := roots w; stores := stores w; stageHeap := h;
     init := init w; running := running w; repeat := repeat w; frame := frame w;
     rafPending := rafPending w; rafNext := rafNext w; trace := trace w |}.

Definition set_init (b : bool) (w : World) : World :=
  {| globalEffects := globalEffects w; globalAfterEffects := globalAfterEffects w;
     globalTailEffects := globalTailEffects w;
     roots := roots w; stores := stores w; stageHeap := stageHeap w;
     init := b; running := running w; repeat := repeat w; frame := frame w;
     rafPending := rafPending w; rafNext := rafNext w; trace := trace w |}.

Definition set_running (b : bool) (w : World) : World :=
  {| globalEffects := globalEffects w; globalAfterEffects := globalAfterEffects w;
     globalTailEffects := globalTailEffects w;
     roots := roots w; stores := stores w; stageHeap := stageHeap w;
     init := init w; running := b; repeat := repeat w; frame := frame w;
     rafPending := rafPending w; rafNext := rafNext w; trace := trace w |}.

Definition set_repeat (n : Z) (w : World) : World :=
  {| globalEffects := globalEffects w; globalAfterEffects := globalAfterEffects w;
     globalTailEffects := globalTailEffects w;
     roots := roots w; stores := stores w; stageHeap := stageHeap w;
     init := init w; running := running w; repeat := n; frame := frame w;
     rafPending := rafPending w; rafNext := rafNext w; trace := trace w |}.

Definition set_frame (h : nat) (w : World) : World :=
  {| globalEffects := globalEffects w; globalAfterEffects := globalAfterEffects w;
     globalTailEffects := globalTailEffects w;
     roots := roots w; stores := stores w; stageHeap := stageHeap w;
     init := init w; running := running w; repeat := repeat w; frame := h;
     rafPending := rafPending w; rafNext := rafNext w; trace := trace w |}.

Definition set_raf (pending : list nat) (next : nat) (w : World) : World :=
  {| globalEffects := globalEffects w; globalAfterEffects := globalAfterEffects w;
     globalTailEffects := globalTailEffects w;
     roots := roots w; stores := stores w; stageHeap := stageHeap w;
     init := init w; running := running w; repeat := repeat w; frame := frame w;
     rafPending := pending; rafNext := next; trace := trace w |}.

Definition set_trace (t : list Event) (w : World) : World :=
  {| globalEffects := globalEffects w; globalAfterEffects := globalAfterEffects w;
     globalTailEffects := globalTailEffects w;
     roots := roots w; stores := stores w; stageHeap := stageHeap w;
     init := init w; running := running w; repeat := repeat w; frame := frame w;
     rafPending := rafPending w; rafNext := rafNext w; trace := t |}.

Definition set_frames (n : Z) (st : RootState) : RootState :=
  {| frameloop := frameloop st; render := render st;
     internal := {| frames := n; maxDelta := maxDelta (internal st);
                    active := active (internal st); stages := stages (internal st);
                    subscribers := subscribers (internal st) |};
     clock := clock st; gl := gl st; getStage := getStage st |}.

Definition set_clock (c : Clock) (st : RootState) : RootState :=
  {| frameloop := frameloop st; render := render st; internal := internal st;
     clock := c; gl := gl st; getStage := getStage st |}.

Definition set_oldTime (t : Q) (c : Clock) : Clock :=
  {| autoStart := autoStart c; startTime := startTime c; oldTime := t;
     elapsedTime := elapsedTime c; clockRunning := clockRunning c |}.

Definition set_elapsedTime (t : Q) (c : Clock) : Clock :=
  {| autoStart := autoStart c; startTime := startTime c; oldTime := oldTime c;
     elapsedTime := t; clockRunning := clockRunning c |}.

(** The array a [Phase] refers to. *)
Definition subsOf (p : Phase) (w : World) : list Callback :=
  match p with
  | Pre => globalEffects w
  | Post => globalAfterEffects w
  | Tail => globalTailEffects w
  end.

(** A callback of the outside is invoked: the call is recorded. *)
Definition emit (e : Event) (w : World) : World :=
  set_trace (trace w ++ [e]) w.

(** ** The effect registry *)

(** [Array.prototype.splice(start, deleteCount)] with no inserted items, for
    [0 <= start]: the elements from [start] on, at most [deleteCount] of
    them, are removed; a [start] past the end removes nothing. *)
Definition splice {A : Type} (start deleteCount : nat) (l : list A) : list A :=
  firstn start l ++ skipn (start + deleteCount) l.

(** The closure [() => void subs.splice(index, 1)] that [createSubs]
    returns: the array it captured and the index it captured. *)
Record Unsubscribe := {
  unsubSubs : Phase;
  unsubIndex : nat
}.

(** Lines 7-11. *)
Definition createSubs (callback : Callback) (subs : Phase) (w : World)
  : Unsubscribe * World :=
  let index := length (subsOf subs w) in
  let w := set_subs subs (subsOf subs w ++ [callback]) w in
  ({| unsubSubs := subs; unsubIndex := index |}, w).

(** Invoking the returned closure. *)
Definition unsubscribe (u : Unsubscribe) (w : World) : World :=
  set_subs (unsubSubs u) (splice (unsubIndex u) 1 (subsOf (unsubSubs u) w)) w.

(** Lines 22, 28, 34. *)
Definition addEffect (callback : Callback) := createSubs callback Pre.
Definition addAfterEffect (callback : Callback) := createSubs callback Post.
Definition addTail (callback : Callback) := createSubs callback Tail.

(** Lines 36-38: every callback of the array, by increasing index. *)
Definition run (effects : Phase) (timestamp : Q) (w : World) : World :=
  fold_left (fun w cb => emit (EvEffect effects cb timestamp) w) (subsOf effects w) w.

(** ** Stages *)

(** The completion of a piece of code that can throw: the only exception
    raised by this file is the [TypeError] of calling [add] on a stage that
    [getStage] did not find. *)
Inductive Completion := Normal | Throw.

Definition Frameloop_eqb (a b : Frameloop) : bool :=
  match a, b with
  | always, always | demand, demand | never, never => true
  | _, _ => false
  end.

Definition RenderMode_eqb (a b : RenderMode) : bool :=
  match a, b with
  | auto, auto | manual, manual => true
  | _, _ => false
  end.

(** A write through the reference [state]. *)
Definition modifyState (state : StoreId) (f : RootState -> RootState) (w : World) : World :=
  set_stores (<[state := f (stores w state)]> (stores w)) w.

(** Modelled from the spec: [Stage.add(callback, owner)], which the sources
    only call; it appends the pair to the stage's list. *)
Definition Stage_add (stage : StageId) (r : StageRef) (owner : StoreId) (w : World) : World :=
  let entry := {| entryRef := r; entryStore := owner |} in
  set_stageHeap
    (<[stage := {| stageSubscribers := stageSubscribers (stageHeap w stage) ++ [entry] |}]>
       (stageHeap w)) w.

(** Lines 87-93, [frameCallback.current(state, delta, frame)]: every
    subscription of [state.internal.subscribers], by increasing index, is
    called with the state of its own store. *)
Definition frameCallback_current (state : StoreId) (delta : Q) (xrFrame : option XRFrame)
    (w : World) : World :=
  fold_left
    (fun w subscription =>
       emit (EvSubscription (ref subscription) (store subscription) delta xrFrame) w)
    (subscribers (internal (stores w state))) w.

(** Lines 100-102, [renderCallback.current(state)]. *)
Definition renderCallback_current (state : StoreId) (w : World) : World :=
  let st := stores w state in
  if RenderMode_eqb (render st) auto && hasRender (gl st)
  then emit (EvRender state) w
  else w.

(** [entry.ref.current(entry.store.getState(), delta, frame)]. *)
Definition callEntry (delta : Q) (xrFrame : option XRFrame) (w : World) (e : StageEntry)
  : World :=
  match entryRef e with
  | frameCallback => frameCallback_current (entryStore e) delta xrFrame w
  | renderCallback => renderCallback_current (entryStore e) w
  | userCallback cb => emit (EvStage cb (entryStore e) delta xrFrame) w
  end.

(** Modelled from the spec: [Stage.frame(delta, frame)], which the sources
    only call; every pair of the stage is run in order, the callback
    receiving the state of the pair's owner. *)
Definition Stage_frame (stage : StageId) (delta : Q) (xrFrame : option XRFrame) (w : World)
  : World :=
  fold_left (callEntry delta xrFrame) (stageSubscribers (stageHeap w stage)) w.

(** ** The host's animation-frame queue *)

Definition requestAnimationFrame (w : World) : nat * World :=
  (rafNext w, set_raf (rafPending w ++ [rafNext w]) (S (rafNext w)) w).

Definition cancelAnimationFrame (handle : nat) (w : World) : World :=
  set_raf (List.filter (fun h => negb (Nat.eqb h handle)) (rafPending w)) (rafNext w) w.

(** ** [update] and [createLoop] *)

(** [state.gl.xr?.isPresenting], as a condition. *)
Definition presenting (st : RootState) : bool :=
  match xr (gl st) with
  | Some m => isPresenting m
  | None => false
  end.

(** The condition of lines 109-113. *)
Definition due (st : RootState) : bool :=
  active (internal st)
  && (Frameloop_eqb (frameloop st) always || (frames (internal st) >? 0))
  && negb (presenting st).

(** [forEach] with a body that can throw: an exception ends the iteration. *)
Fixpoint forEach {A : Type} (f : A -> World -> Completion * World) (l : list A) (w : World)
  : Completion * World :=
  match l with
  | [] => (Normal, w)
  | x :: l =>
      match f x w with
      | (Throw, w) => (Throw, w)
      | (Normal, w) => forEach f l w
      end
  end.

Section Loop.

Context {clockOps : ClockOps}.

(** Lines 42-60.  [timestamp] has type [number], so the test
    [typeof timestamp === 'number'] of line 46 holds.  [getDelta] is a method
    of the clock object: what it does to the clock is written back. *)
Definition update (timestamp : Q) (state : StoreId) (xrFrame : option XRFrame) (w : World)
  : Z * World :=
  (* line 44 *)
  let '(delta, c) := getDelta (clock (stores w state)) in
  let w := modifyState state (set_clock c) w in
  (* lines 46-52 *)
  let '(delta, w) :=
    if Frameloop_eqb (frameloop (stores w state)) never then
      let delta := (timestamp - elapsedTime (clock (stores w state)))%Q in
      let w := modifyState state
                 (fun st => set_clock (set_oldTime (elapsedTime (clock st)) (clock st)) st) w in
      let w := modifyState state
                 (fun st => set_clock (set_elapsedTime timestamp (clock st)) st) w in
      (delta, w)
    else
      (Qmin delta (maxDelta (internal (stores w state))), w) in
  (* lines 54-56 *)
  let w :=
    fold_left (fun w stage => Stage_frame stage delta xrFrame w)
      (stages (internal (stores w state))) w in
  (* line 58 *)
  let w := modifyState state (fun st => set_frames (Z.max 0 (frames (internal st) - 1)) st) w in
  (* line 59 *)
  (if Frameloop_eqb (frameloop (stores w state)) always then 1
   else frames (internal (stores w state)), w).

(** Lines 83-106: the block guarded by [init]. *)
Definition installStages (root : Root) (w : World) : Completion * World :=
  if init w then
    let store := rootStore root in
    match getStage (stores w store) "update" with
    | None => (Throw, w)
    | Some updateStage =>
        let w := Stage_add updateStage frameCallback store w in
        match getStage (stores w store) "render" with
        | None => (Throw, w)
        | Some renderStage =>
            let w := Stage_add renderStage renderCallback store w in
            (Normal, set_init false w)
        end
    end
  else (Normal, w).

(** Lines 108-115: [repeat += update(timestamp, state)] under its guard. *)
Definition renderRoot (timestamp : Q) (root : Root) (w : World) : World :=
  if due (stores w (rootStore root)) then
    let '(n, w') := update timestamp (rootStore root) None w in
    set_repeat (repeat w + n) w'
  else w.

(** Lines 78-116: the body of [roots.forEach]. *)
Definition loopRoot (timestamp : Q) (root : Root) (w : World) : Completion * World :=
  match installStages root w with
  | (Throw, w) => (Throw, w)
  | (Normal, w) => (Normal, renderRoot timestamp root w)
  end.

(** Lines 69-130.  A [TypeError] of the install block leaves [loop] at once,
    with what was done so far. *)
Definition loop (timestamp : Q) (w : World) : Completion * World :=
  (* lines 70-72 *)
  let '(handle, w) := requestAnimationFrame w in
  let w := set_frame handle w in
  let w := set_running true w in
  let w := set_repeat 0 w in
  (* line 75 *)
  let w := if (length (globalEffects w) =? 0)%nat then w else run Pre timestamp w in
  (* lines 78-116 *)
  match forEach (loopRoot timestamp) (roots w) w with
  | (Throw, w) => (Throw, w)
  | (Normal, w) =>
      (* line 119 *)
      let w := if (length (globalAfterEffects w) =? 0)%nat then w else run Post timestamp w in
      (* lines 122-129 *)
      if repeat w =? 0 then
        let w := if (length (globalTailEffects w) =? 0)%nat then w else run Tail timestamp w in
        let w := set_running false w in
        (Normal, cancelAnimationFrame (frame w) w)
      else (Normal, w)
  end.

(** Lines 134-141: [invalidate] called with a state.  [frameCount] is the
    parameter [frames = 1]. *)
Definition invalidateState (state : StoreId) (frameCount : option Z) (w : World) : World :=
  let frameCount := default 1 frameCount in
  let st := stores w state in
  if presenting st || negb (active (internal st)) || Frameloop_eqb (frameloop st) never
  then w
  else
    let w := modifyState state
               (fun st => set_frames (Z.min 60 (frames (internal st) + frameCount)) st) w in
    if running w then w
    else
      let w := set_running true w in
      snd (requestAnimationFrame w).

(** Lines 132-142.  Without a state, line 133 calls
    [invalidate(root.store.getState())] for every root: [frames] is the second
    argument of [forEach], so the inner call receives a state and no frame
    count. *)
Definition invalidate (state : option StoreId) (frameCount : option Z) (w : World) : World :=
  match state with
  | None => fold_left (fun w root => invalidateState (rootStore root) None w) (roots w) w
  | Some state => invalidateState state frameCount w
  end.

(** Lines 144-154. *)
Definition advance (timestamp : Q) (runGlobalEffects : option bool)
    (state : option StoreId) (xrFrame : option XRFrame) (w : World) : World :=
  let runGlobalEffects := default true runGlobalEffects in
  let w := if runGlobalEffects then run Pre timestamp w else w in
  let w :=
    match state with
    | None => fold_left (fun w root => snd (update timestamp (rootStore root) None w)) (roots w) w
    | Some state => snd (update timestamp state xrFrame w)
    end in
  if runGlobalEffects then run Post timestamp w else w.

End Loop.

(** ** What a pipeline run shows to the outside *)

(** The calls made by one stage entry, given the heap of states. *)
Definition entryEvents (sigma : StoreId -> RootState) (delta : Q) (xrFrame : option XRFrame)
    (e : StageEntry) : list Event :=
  let owner := entryStore e in
  match entryRef e with
  | frameCallback =>
      map (fun sub => EvSubscription (ref sub) (store sub) delta xrFrame)
        (subscribers (internal (sigma owner)))
  | renderCallback =>
      if RenderMode_eqb (render (sigma owner)) auto && hasRender (gl (sigma owner))
      then [EvRender owner] else []
  | userCallback cb => [EvStage cb owner delta xrFrame]
  end.

Definition stageEvents (sigma : StoreId -> RootState) (h : StageId -> Stage) (delta : Q)
    (xrFrame : option XRFrame) (stage : StageId) : list Event :=
  flat_map (entryEvents sigma delta xrFrame) (stageSubscribers (h stage)).

Definition pipelineEvents (sigma : StoreId -> RootState) (h : StageId -> Stage) (delta : Q)
    (xrFrame : option XRFrame) (l : list StageId) : list Event :=
  flat_map (stageEvents sigma h delta xrFrame) l.

(** The calls made by [run]. *)
Definition effectEvents (p : Phase) (timestamp : Q) (w : World) : list Event :=
  map (fun cb => EvEffect p cb timestamp) (subsOf p w).

Definition isEffect (e : Event) : bool :=
  match e with
  | EvEffect _ _ _ => true
  | _ => false
  end.

(** Two heaps of states that stage callbacks cannot tell apart. *)
Definition sameView (sigma sigma' : StoreId -> RootState) : Prop :=
  forall x,
    subscribers (internal (sigma' x)) = subscribers (internal (sigma x))
    /\ render (sigma' x) = render (sigma x)
    /\ gl (sigma' x) = gl (sigma x).

(** Everything but the heap of states and the trace is the same. *)
Definition sameControl (w w' : World) : Prop :=
  globalEffects w' = globalEffects w
  /\ globalAfterEffects w' = globalAfterEffects w
  /\ globalTailEffects w' = globalTailEffects w
  /\ roots w' = roots w
  /\ stageHeap w' = stageHeap w
  /\ init w' = init w
  /\ running w' = running w
  /\ repeat w' = repeat w
  /\ frame w' = frame w
  /\ rafPending w' = rafPending w
  /\ rafNext w' = rafNext w.

Section Derived.

Context {clockOps : ClockOps}.

(** The delta that [update] passes to the stages (lines 44-52). *)
Definition update_delta (timestamp : Q) (st : RootState) : Q :=
  if Frameloop_eqb (frameloop st) never
  then (timestamp - elapsedTime (snd (getDelta (clock st))))%Q
  else Qmin (fst (getDelta (clock st))) (maxDelta (internal st)).

(** The clock that [update] leaves behind (lines 44-49). *)
Definition update_clock (timestamp : Q) (st : RootState) : Clock :=
  let c := snd (getDelta (clock st)) in
  if Frameloop_eqb (frameloop st) never
  then set_elapsedTime timestamp (set_oldTime (elapsedTime c) c)
  else c.

(** The state that [update] leaves behind. *)
Definition update_state (timestamp : Q) (st : RootState) : RootState :=
  set_frames (Z.max 0 (frames (internal st) - 1)) (set_clock (update_clock timestamp st) st).

(** The value that [update] returns (lines 58-59). *)
Definition update_result (st : RootState) : Z :=
  if Frameloop_eqb (frameloop st) always then 1 else Z.max 0 (frames (internal st) - 1).

(** The host fires its oldest pending request: the request leaves the queue
    (a request is served once) and its callback, [loop], is called. *)
Definition fireFrame (timestamp : Q) (w : World) : Completion * World :=
  match rafPending w with
  | [] => (Normal, w)
  | _ :: pending => loop timestamp (set_raf pending (rafNext w) w)
  end.

(** *** Sequences of calls from the outside *)

Inductive Call :=
| CallFrame (timestamp : Q)
| CallLoop (timestamp : Q)
| CallInvalidate (state : option StoreId) (frameCount : option Z)
| CallAdvance (timestamp : Q) (runGlobalEffects : option bool) (state : option StoreId)
    (xrFrame : option XRFrame)
| CallCreateSubs (callback : Callback) (subs : Phase)
| CallUnsubscribe (u : Unsubscribe).

Definition call (w : World) (c : Call) : World :=
  match c with
  | CallFrame timestamp => snd (fireFrame timestamp w)
  | CallLoop timestamp => snd (loop timestamp w)
  | CallInvalidate state frameCount => invalidate state frameCount w
  | CallAdvance timestamp runGlobalEffects state xrFrame =>
      advance timestamp runGlobalEffects state xrFrame w
  | CallCreateSubs callback subs => snd (createSubs callback subs w)
  | CallUnsubscribe u => unsubscribe u w
  end.

Definition calls (l : list Call) (w : World) : World := fold_left call l w.

End Derived.

(** A call that does not ask for a negative number of frames. *)
Definition requestsFrames (c : Call) : Prop :=
  match c with
  | CallInvalidate _ (Some n) => 0 <= n
  | _ => True
  end.

(** Every pending-frame counter is within its bounds. *)
Definition framesInRange (w : World) : Prop :=
  forall s, 0 <= frames (internal (stores w s)) <= 60.

(** ** Concrete worlds *)

(** A [THREE.Clock] that was stopped: [getDelta] reports nothing and leaves
    the clock alone. *)
Definition stoppedClock : ClockOps := fun c => (0%Q, c).


Definition exampleClock : Clock :=
  {| autoStart := false; startTime := 0; oldTime := 0; elapsedTime := 0;
     clockRunning := false |}.

Definition exampleGetStage (updateStage renderStage : StageId) (name : string)
  : option StageId :=
  if String.eqb name "update" then Some updateStage
  else if String.eqb name "render" then Some renderStage
  else None.

(** An active root that is not presenting, with an update and a render stage
    and one [useFrame] subscription. *)
Definition exampleState (self : StoreId) (mode : Frameloop) (n : Z)
    (updateStage renderStage : StageId) : RootState :=
  {| frameloop := mode; render := auto;
     internal := {| frames := n; maxDelta := 1 # 10; active := true;
                    stages := [updateStage; renderStage];
                    subscribers := [ {| ref := 7%nat; store := self |} ] |};
     clock := exampleClock;
     gl := {| xr := None; hasRender := true |};
     getStage := exampleGetStage updateStage renderStage |}.

(** A fresh module and loop over the given roots and states. *)
Definition freshWorld (rs : list Root) (sigma : StoreId -> RootState) : World :=
  {| globalEffects := []; globalAfterEffects := []; globalTailEffects := [];
     roots := rs; stores := sigma; stageHeap := fun _ => {| stageSubscribers := [] |};
     init := true; running := false; repeat := 0; frame := 0%nat;
     rafPending := []; rafNext := 1%nat; trace := [] |}.

(** One root in the given mode with the given counter. *)
Definition oneRoot (mode : Frameloop) (n : Z) : World :=
  freshWorld [ {| rootStore := 0%nat |} ] (fun s => exampleState s mode n 0%nat 1%nat).

(** Two roots with stages of their own: root 0 renders on demand and has
    [n] frames pending, root 1 likewise has [m]. *)
Definition twoRoots (n m : Z) : World :=
  freshWorld [ {| rootStore := 0%nat |}; {| rootStore := 1%nat |} ]
    (fun s => match s with
              | O => exampleState s demand n 0%nat 1%nat
              | _ => exampleState s demand m 2%nat 3%nat
              end).

(** *** The footprint of the work done for roots *)

(** A counter that went down by ticks only, never past zero. *)
Definition frameShrink (f f' : Z) : Prop := Z.min 0 f <= f' <= Z.max 0 f.

(** No call of a global effect among the events. *)
Definition noEffects (evs : list Event) : bool := forallb (fun e => negb (isEffect e)) evs.

(** What processing roots (lines 78-116, and [update] alone) may change: the
    heaps, the one-shot flag, [repeat], and the trace by calls that are not
    global effects. *)
Definition rootWork (w w' : World) : Prop :=
  globalEffects w' = globalEffects w
  /\ globalAfterEffects w' = globalAfterEffects w
  /\ globalTailEffects w' = globalTailEffects w
  /\ roots w' = roots w
  /\ running w' = running w
  /\ frame w' = frame w
  /\ rafPending w' = rafPending w
  /\ rafNext w' = rafNext w
  /\ (exists evs, trace w' = trace w ++ evs /\ noEffects evs = true)
  /\ (init w = false -> init w' = false /\ stageHeap w' = stageHeap w)
  /\ (forall s, frameShrink (frames (internal (stores w s))) (frames (internal (stores w' s)))).

(** No call of a tail effect among the events. *)
Definition noTail (evs : list Event) : bool :=
  forallb (fun e => match e with EvEffect Tail _ _ => false | _ => true end) evs.

(** *** The standing stage entries of a root *)

Definition StageRef_eqb (a b : StageRef) : bool :=
  match a, b with
  | frameCallback, frameCallback | renderCallback, renderCallback => true
  | userCallback x, userCallback y => Nat.eqb x y
  | _, _ => false
  end.

(** How many entries of the stage hold the callback for the owner. *)
Definition entryCount (r : StageRef) (owner : StoreId) (stage : Stage) : nat :=
  length (List.filter
            (fun e => StageRef_eqb (entryRef e) r && Nat.eqb (entryStore e) owner)
            (stageSubscribers stage)).

(** How many times the root's update stage holds [frameCallback] for it and
    its render stage holds [renderCallback] for it; [None] when the root lacks
    one of the two stages. *)
Definition standingEntries (w : World) (root : Root) : option (nat * nat) :=
  let s := rootStore root in
  match getStage (stores w s) "update", getStage (stores w s) "render" with
  | Some updateStage, Some renderStage =>
      Some (entryCount frameCallback s (stageHeap w updateStage),
            entryCount renderCallback s (stageHeap w renderStage))
  | _, _ => None
  end.

(** *** The end of a tick *)

(** What a completed tick at [timestamp] from [w] to [w'] did: the
    pre-effects, work on the roots that calls no global effect, the
    post-effects; then, when [repeat] is zero, every tail effect once in the
    order of the array, the driver idle and the request of this tick
    cancelled; and when [repeat] is not zero, no tail effect, the driver
    running and the request of this tick pending. *)
Definition endOfTick (timestamp : Q) (w w' : World) : Prop :=
  exists work,
    noEffects work = true
    /\ (repeat w' = 0 ->
        trace w' = trace w ++ effectEvents Pre timestamp w ++ work
                   ++ effectEvents Post timestamp w ++ effectEvents Tail timestamp w
        /\ running w' = false
        /\ rafPending w' = rafPending w)
    /\ (repeat w' <> 0 ->
        trace w' = trace w ++ effectEvents Pre timestamp w ++ work
                   ++ effectEvents Post timestamp w
        /\ running w' = true
        /\ rafPending w' = rafPending w ++ [rafNext w]).

(** One root on demand, one effect in each array, and [n] frames requested
    through [invalidate]: the driver is running and its request is pending. *)
Definition requestedWorld (n : Z) : World :=
  let w := invalidate (Some 0%nat) (Some n) (oneRoot demand 0) in
  let w := snd (addEffect 11%nat w) in
  let w := snd (addAfterEffect 22%nat w) in
  snd (addTail 33%nat w).

(** The same when the host has taken the request off its queue and is about
    to call [loop]. *)
Definition invalidatedWorld (n : Z) : World :=
  set_raf [] (rafNext (requestedWorld n)) (requestedWorld n).

(** The pending-frame counter of a root state. *)
Definition framesOf (w : World) (s : StoreId) : Z := frames (internal (stores w s)).

Definition isInvalidate (c : Call) : bool :=
  match c with
  | CallInvalidate _ _ => true
  | _ => false
  end.

(** *** Further vocabulary *)

(** Several registrations in a row in one array. *)
Definition registerAll (callbacks : list Callback) (subs : Phase) (w : World) : World :=
  fold_left (fun w callback => snd (createSubs callback subs w)) callbacks w.

(** Two states that differ at most in their clock and their counter. *)
Definition sameConfig (st st' : RootState) : Prop :=
  frameloop st' = frameloop st
  /\ render st' = render st
  /\ gl st' = gl st
  /\ getStage st' = getStage st
  /\ maxDelta (internal st') = maxDelta (internal st)
  /\ active (internal st') = active (internal st)
  /\ stages (internal st') = stages (internal st)
  /\ subscribers (internal st') = subscribers (internal st).

(** A root state whose [getStage] finds only the stages listed. *)
Definition withStages (find : string -> option StageId) (st : RootState) : RootState :=
  {| frameloop := frameloop st; render := render st; internal := internal st;
     clock := clock st; gl := gl st; getStage := find |}.

(** One root on demand with a pending frame and no stage at all. *)
Definition noStageWorld : World :=
  freshWorld [ {| rootStore := 0%nat |} ]
    (fun s => withStages (fun _ => None) (exampleState s demand 1 0%nat 1%nat)).

(** One root on demand with a pending frame, an update stage and no render
    stage. *)
Definition noRenderStageWorld : World :=
  freshWorld [ {| rootStore := 0%nat |} ]
    (fun s => withStages (fun name => if String.eqb name "update" then Some 0%nat else None)
                (exampleState s demand 1 0%nat 1%nat)).

(** Two roots with stages of their own and no pending frame: root 0 in mode
    always, root 1 on demand. *)
Definition alwaysAndDemand : World :=
  freshWorld [ {| rootStore := 0%nat |}; {| rootStore := 1%nat |} ]
    (fun s => match s with
              | O => exampleState s always 0 0%nat 1%nat
              | _ => exampleState s demand 0 2%nat 3%nat
              end).

(** A call made by the host or by the users of the exported functions, the
    direct call of [loop] apart. *)
Definition hostDriven (c : Call) : Prop :=
  match c with
  | CallLoop _ => False
  | _ => True
  end.

(** The driver and the queue of the host agree: one request is pending when
    the driver is running, none when it is idle. *)
Definition queueOk (w : World) : Prop :=
  length (rafPending w) = if running w then 1%nat else 0%nat.

(** The root set is the single root [root], which is on demand, active, not
    presenting and has [k] pending frames; the stage entries are installed,
    the driver is running and its request is pending. *)
Definition demandReady (w : World) (root : Root) (k : Z) : Prop :=
  roots w = [root]
  /\ init w = false
  /\ frameloop (stores w (rootStore root)) = demand
  /\ active (internal (stores w (rootStore root))) = true
  /\ presenting (stores w (rootStore root)) = false
  /\ framesOf w (rootStore root) = k
  /\ running w = true
  /\ length (rafPending w) = 1%nat.

(** A call that is not a registration or the call of a handle. *)
Definition isRegistry (c : Call) : bool :=
  match c with
  | CallCreateSubs _ _ | CallUnsubscribe _ => true
  | _ => false
  end.

(** The root passes the test of line 134: [invalidate] does not ignore it. *)
Definition eligible (st : RootState) : bool :=
  negb (presenting st || negb (active (internal st)) || Frameloop_eqb (frameloop st) never).

(** The calls made by [update] for one root of the root set, when [advance]
    is called without a state. *)
Definition rootEvents {clockOps : ClockOps} (timestamp : Q) (w : World) (root : Root)
  : list Event :=
  pipelineEvents (stores w) (stageHeap w)
    (update_delta timestamp (stores w (rootStore root))) None
    (stages (internal (stores w (rootStore root)))).

(** Two roots on demand without a pending frame, one effect in each array,
    the one-shot flag cleared and an empty queue. *)
Definition settledWorld : World :=
  let w := set_init false (twoRoots 0 0) in
  let w := snd (addEffect 11%nat w) in
  let w := snd (addAfterEffect 22%nat w) in
  snd (addTail 33%nat w).

(** ** Basic facts *)

Lemma emit_fold {A : Type} (f : A -> Event) (l : list A) (w : World) :
  fold_left (fun w x => emit (f x) w) l w = set_trace (trace w ++ map f l) w.
Proof.
  revert w; induction l as [|x l IH]; intros w; simpl.
  - now rewrite app_nil_r.
  - rewrite IH. unfold emit; simpl. now rewrite <- app_assoc.
Qed.

(** A loop whose body only appends events that depend on the two heaps. *)
Lemma emitting_fold {A : Type} (g : World -> A -> World)
    (ev : (StoreId -> RootState) -> (StageId -> Stage) -> A -> list Event) :
  (forall w x, g w x = set_trace (trace w ++ ev (stores w) (stageHeap w) x) w) ->
  forall l w,
    fold_left g l w = set_trace (trace w ++ flat_map (ev (stores w) (stageHeap w)) l) w.
Proof.
  intros Hg l; induction l as [|x l IH]; intros w; simpl.
  - now rewrite app_nil_r.
  - rewrite IH, Hg. simpl. now rewrite <- app_assoc.
Qed.

Lemma run_eq (p : Phase) (timestamp : Q) (w : World) :
  run p timestamp w = set_trace (trace w ++ effectEvents p timestamp w) w.
Proof. unfold run, effectEvents. apply emit_fold. Qed.

Lemma callEntry_eq (delta : Q) (xrFrame : option XRFrame) (w : World) (e : StageEntry) :
  callEntry delta xrFrame w e
  = set_trace (trace w ++ entryEvents (stores w) delta xrFrame e) w.
Proof.
  unfold callEntry, entryEvents, frameCallback_current, renderCallback_current.
  destruct (entryRef e).
  - apply emit_fold.
  - destruct (_ && _); [reflexivity | now rewrite app_nil_r].
  - reflexivity.
Qed.

Lemma Stage_frame_eq (stage : StageId) (delta : Q) (xrFrame : option XRFrame) (w : World) :
  Stage_frame stage delta xrFrame w
  = set_trace (trace w ++ stageEvents (stores w) (stageHeap w) delta xrFrame stage) w.
Proof.
  unfold Stage_frame, stageEvents.
  apply (emitting_fold (callEntry delta xrFrame)
           (fun sigma _ => entryEvents sigma delta xrFrame)).
  intros; apply callEntry_eq.
Qed.

Lemma pipeline_eq (delta : Q) (xrFrame : option XRFrame) (l : list StageId) (w : World) :
  fold_left (fun w stage => Stage_frame stage delta xrFrame w) l w
  = set_trace (trace w ++ pipelineEvents (stores w) (stageHeap w) delta xrFrame l) w.
Proof.
  unfold pipelineEvents.
  apply (emitting_fold (fun w stage => Stage_frame stage delta xrFrame w)
           (fun sigma h => stageEvents sigma h delta xrFrame)).
  intros; apply Stage_frame_eq.
Qed.

Lemma pipelineEvents_view sigma sigma' h delta xrFrame l :
  sameView sigma sigma' ->
  pipelineEvents sigma' h delta xrFrame l = pipelineEvents sigma h delta xrFrame l.
Proof.
  intros Hv. unfold pipelineEvents, stageEvents.
  apply flat_map_ext; intros stage. apply flat_map_ext; intros e.
  unfold entryEvents. destruct (Hv (entryStore e)) as (-> & -> & ->). reflexivity.
Qed.

(** ** The effect of [update] *)

Section LoopFacts.

Context {clockOps : ClockOps}.

Ltac unfold_update :=
  unfold update, modifyState;
  match goal with
  | |- context [getDelta ?k] => destruct (getDelta k) as [d0 c0] eqn:Hg
  end; simpl; rewrite ?fn_lookup_insert; simpl;
  match goal with
  | |- context [Frameloop_eqb ?a never] => destruct (Frameloop_eqb a never) eqn:Hn
  end; simpl; rewrite ?fn_lookup_insert; simpl; rewrite ?pipeline_eq; simpl;
  rewrite ?fn_lookup_insert; simpl.

Lemma update_fst t s f w : fst (update t s f w) = update_result (stores w s).
Proof. unfold_update; reflexivity. Qed.

Lemma update_control t s f w : sameControl w (snd (update t s f w)).
Proof. unfold_update; repeat split. Qed.

Lemma update_stores_same t s f w :
  stores (snd (update t s f w)) s = update_state t (stores w s).
Proof.
  unfold update_state, update_clock. unfold_update; rewrite ?Hg; reflexivity.
Qed.

Lemma update_stores_other t s f w x :
  x <> s -> stores (snd (update t s f w)) x = stores w x.
Proof.
  intros Hx. unfold_update; rewrite ?fn_lookup_insert_ne by congruence; reflexivity.
Qed.

Lemma update_trace t s f w :
  trace (snd (update t s f w))
  = trace w ++ pipelineEvents (stores w) (stageHeap w) (update_delta t (stores w s)) f
                 (stages (internal (stores w s))).
Proof.
  unfold update_delta. unfold_update; rewrite ?Hg; simpl; f_equal;
    apply pipelineEvents_view;
    intros x; unfold insert, fn_insert; repeat (destruct (decide _)); subst; simpl; auto.
Qed.

End LoopFacts.

(** ** The footprint of the work done for roots *)

Ltac splits := repeat match goal with |- _ /\ _ => split end.

Lemma frameShrink_refl f : frameShrink f f.
Proof. unfold frameShrink; lia. Qed.

Lemma frameShrink_trans f1 f2 f3 : frameShrink f1 f2 -> frameShrink f2 f3 -> frameShrink f1 f3.
Proof. unfold frameShrink; lia. Qed.

Create HintDb frameloop.
#[local] Hint Resolve frameShrink_refl : frameloop.

Lemma noEffects_app a b : noEffects (a ++ b) = noEffects a && noEffects b.
Proof. apply forallb_app. Qed.

Lemma rootWork_refl w : rootWork w w.
Proof.
  unfold rootWork; splits; auto with frameloop.
  exists []; split; [now rewrite app_nil_r | reflexivity].
Qed.

#[local] Hint Resolve rootWork_refl : frameloop.

Lemma rootWork_trans w1 w2 w3 : rootWork w1 w2 -> rootWork w2 w3 -> rootWork w1 w3.
Proof.
  intros (A1 & A2 & A3 & A4 & A5 & A6 & A7 & A8 & (e1 & A9 & N1) & A10 & A11)
         (B1 & B2 & B3 & B4 & B5 & B6 & B7 & B8 & (e2 & B9 & N2) & B10 & B11).
  unfold rootWork; splits; try congruence.
  - exists (e1 ++ e2); split.
    + now rewrite B9, A9, app_assoc.
    + now rewrite noEffects_app, N1, N2.
  - intros Hi. destruct (A10 Hi) as [Hi' Hs]. destruct (B10 Hi') as [-> ->]. auto.
  - intros s. eapply frameShrink_trans; eauto.
Qed.

Lemma pipelineEvents_noEffects sigma h delta f l :
  noEffects (pipelineEvents sigma h delta f l) = true.
Proof.
  unfold noEffects. apply forallb_forall. intros e He.
  unfold pipelineEvents in He. apply in_flat_map in He as (stage & _ & He).
  unfold stageEvents in He. apply in_flat_map in He as (en & _ & He).
  unfold entryEvents in He. destruct (entryRef en).
  - apply in_map_iff in He as (sub & <- & _). reflexivity.
  - destruct (_ && _); [destruct He as [<- | []]; reflexivity | destruct He].
  - destruct He as [<- | []]; reflexivity.
Qed.

Section RootWork.

Context {clockOps : ClockOps}.

Lemma update_rootWork t s f w : rootWork w (snd (update t s f w)).
Proof.
  destruct (update_control t s f w) as (C1 & C2 & C3 & C4 & C5 & C6 & C7 & C8 & C9 & C10 & C11).
  unfold rootWork; splits; auto.
  - eexists; split; [apply update_trace | apply pipelineEvents_noEffects].
  - intros Hi; split; congruence.
  - intros x. unfold frameShrink. destruct (decide (x = s)) as [-> | Hne].
    + rewrite update_stores_same. unfold update_state; simpl. lia.
    + rewrite update_stores_other by assumption. lia.
Qed.

Lemma renderRoot_rootWork t root w : rootWork w (renderRoot t root w).
Proof.
  unfold renderRoot. destruct (due _); [| auto with frameloop].
  pose proof (update_rootWork t (rootStore root) None w) as H.
  destruct (update t (rootStore root) None w) as [n w']; simpl in H.
  destruct H as (A1 & A2 & A3 & A4 & A5 & A6 & A7 & A8 & A9 & A10 & A11).
  unfold rootWork; splits; auto.
Qed.

Lemma installStages_rootWork root w : rootWork w (snd (installStages root w)).
Proof.
  unfold installStages. destruct (init w) eqn:Hi; [| auto with frameloop].
  assert (Hex : forall w', trace w' = trace w -> exists evs, trace w' = trace w ++ evs /\ noEffects evs = true)
    by (intros w' ->; exists []; now rewrite app_nil_r).
  destruct (getStage _ "update"); simpl; [| auto with frameloop].
  destruct (getStage _ "render"); simpl;
    unfold rootWork; splits; simpl; auto with frameloop; try congruence.
Qed.

Lemma loopRoot_rootWork t root w : rootWork w (snd (loopRoot t root w)).
Proof.
  unfold loopRoot. pose proof (installStages_rootWork root w) as H.
  destruct (installStages root w) as [[|] w1]; simpl in *; [| exact H].
  eapply rootWork_trans; [exact H | apply renderRoot_rootWork].
Qed.

Lemma forEach_rootWork t l w : rootWork w (snd (forEach (loopRoot t) l w)).
Proof.
  revert w; induction l as [|root l IH]; intros w; simpl; [auto with frameloop |].
  pose proof (loopRoot_rootWork t root w) as H.
  destruct (loopRoot t root w) as [[|] w1]; simpl in *; [| exact H].
  eapply rootWork_trans; [exact H | apply IH].
Qed.
End RootWork.

(** ** The effect registry *)

Lemma splice_at {A : Type} (pre post : list A) (x : A) :
  splice (length pre) 1 (pre ++ x :: post) = pre ++ post.
Proof.
  unfold splice. rewrite firstn_app, firstn_all, Nat.sub_diag, app_nil_r; simpl.
  replace (length pre + 1)%nat with (length pre + 1 + 0)%nat by lia.
  rewrite skipn_app, skipn_all2 by lia.
  replace (length pre + 1 + 0 - length pre)%nat with 1%nat by lia. reflexivity.
Qed.

Lemma splice_past_end {A : Type} (index : nat) (l : list A) :
  (length l <= index)%nat -> splice index 1 l = l.
Proof.
  intros H. unfold splice. rewrite firstn_all2, skipn_all2 by lia. apply app_nil_r.
Qed.

Lemma subsOf_set_subs p l w : subsOf p (set_subs p l w) = l.
Proof. destruct p; reflexivity. Qed.

(** While the entries before it stay in place, the handle removes the entry
    it was created for, whatever was appended behind it. *)
Lemma unsubscribe_in_place callback subs w later :
  let '(u, w1) := createSubs callback subs w in
  subsOf subs (unsubscribe u (set_subs subs (subsOf subs w1 ++ later) w1))
  = subsOf subs w ++ later.
Proof.
  unfold createSubs, unsubscribe; simpl.
  rewrite !subsOf_set_subs, <- app_assoc. simpl. apply splice_at.
Qed.

(** C3 (the code departs from it).  The handle returned by a registration
    removes whatever sits at the index recorded at registration.  After the
    effects 1 and 2 are registered and the handle of 1 is invoked, the
    handle of 2 removes nothing, and a second invocation of the handle of 1
    removes 2. *)
Theorem createSubs_stale_index :
  let w0 := freshWorld [] (fun s => exampleState s demand 0 0%nat 1%nat) in
  let ua := fst (addEffect 1%nat w0) in
  let w1 := snd (addEffect 1%nat w0) in
  let ub := fst (addEffect 2%nat w1) in
  let w2 := snd (addEffect 2%nat w1) in
  globalEffects w2 = [1%nat; 2%nat]
  /\ globalEffects (unsubscribe ua w2) = [2%nat]
  /\ globalEffects (unsubscribe ub (unsubscribe ua w2)) = [2%nat]
  /\ globalEffects (unsubscribe ua (unsubscribe ua w2)) = [].
Proof. repeat split. Qed.

(** ** [invalidate] *)

(** C1 (the code departs from it).  Without a state, [invalidate] visits
    every root of the root set, but the frame count it was given does not
    reach them: each eligible root is invalidated by one frame.  With two
    roots on demand holding 0 and 3 pending frames, a request for 5 frames
    leaves them at 1 and 4, where a fan-out of the frame count gives 5 and 8. *)
Theorem invalidate_all_drops_frameCount :
  (forall frameCount w,
      invalidate None frameCount w
      = fold_left (fun w root => invalidate (Some (rootStore root)) (Some 1) w) (roots w) w)
  /\ frames (internal (stores (invalidate None (Some 5) (twoRoots 0 3)) 0%nat)) = 1
  /\ frames (internal (stores (invalidate None (Some 5) (twoRoots 0 3)) 1%nat)) = 4.
Proof. repeat split. Qed.

(** C10.  When the root set is empty, [invalidate] without a state changes
    nothing: no root state, no request to the host, and an idle driver stays
    idle. *)
Theorem invalidate_all_no_roots (frameCount : option Z) (w : World) :
  roots w = [] ->
  invalidate None frameCount w = w
  /\ running (invalidate None frameCount w) = running w
  /\ rafPending (invalidate None frameCount w) = rafPending w
  /\ (forall s, stores (invalidate None frameCount w) s = stores w s).
Proof.
  intros Hr. assert (H : invalidate None frameCount w = w).
  { unfold invalidate. rewrite Hr. reflexivity. }
  rewrite H. auto.
Qed.

(** An empty root set: a request for five frames changes nothing. *)
Lemma invalidate_all_no_roots_witness :
  let w := freshWorld [] (fun s => exampleState s demand 0 0%nat 1%nat) in
  invalidate None (Some 5) w = w
  /\ running (invalidate None (Some 5) w) = false
  /\ rafPending (invalidate None (Some 5) w) = []
  /\ (forall s, stores (invalidate None (Some 5) w) s = stores w s).
Proof.
  exact (invalidate_all_no_roots (Some 5)
           (freshWorld [] (fun s => exampleState s demand 0 0%nat 1%nat)) eq_refl).
Defined.

(** The condition of line 134. *)
Lemma invalidate_ignored_iff (st : RootState) :
  presenting st || negb (active (internal st)) || Frameloop_eqb (frameloop st) never = true
  <-> presenting st = true \/ active (internal st) = false \/ frameloop st = never.
Proof.
  destruct (presenting st), (active (internal st)), (frameloop st); simpl;
    intuition congruence.
Qed.

(** C6.  [invalidate(state, frameCount)] returns the world as it found it
    when the root is presenting, inactive, or in mode never.  Otherwise the
    root's counter becomes min(60, counter + frameCount) (frameCount being 1
    when it is left out), nothing else of any state changes, and an idle
    driver is set running with one request to the host, a running one being
    left as it is. *)
Theorem invalidate_state (state : StoreId) (frameCount : option Z) (w : World) :
  let st := stores w state in
  let w' := invalidate (Some state) frameCount w in
  (presenting st = true \/ active (internal st) = false \/ frameloop st = never ->
   w' = w)
  /\ (presenting st = false /\ active (internal st) = true /\ frameloop st <> never ->
      stores w' state
      = set_frames (Z.min 60 (frames (internal st) + default 1 frameCount)) st
      /\ (forall x, x <> state -> stores w' x = stores w x)
      /\ running w' = true
      /\ (running w = false ->
          rafPending w' = rafPending w ++ [rafNext w] /\ rafNext w' = S (rafNext w))
      /\ (running w = true ->
          rafPending w' = rafPending w /\ rafNext w' = rafNext w)
      /\ globalEffects w' = globalEffects w
      /\ globalAfterEffects w' = globalAfterEffects w
      /\ globalTailEffects w' = globalTailEffects w
      /\ roots w' = roots w
      /\ stageHeap w' = stageHeap w
      /\ init w' = init w
      /\ repeat w' = repeat w
      /\ frame w' = frame w
      /\ trace w' = trace w).
Proof.
  intros st w'. subst st w'. unfold invalidate, invalidateState. split.
  - intros H. apply invalidate_ignored_iff in H. rewrite H. reflexivity.
  - intros (Hp & Ha & Hn).
    destruct (presenting _ || negb _ || Frameloop_eqb _ never) eqn:Hc.
    + apply invalidate_ignored_iff in Hc. intuition congruence.
    + unfold modifyState; simpl.
      destruct (running w) eqn:Hr; simpl; rewrite ?fn_lookup_insert; splits; auto;
        try discriminate;
        intros x Hx; rewrite fn_lookup_insert_ne by congruence; reflexivity.
Qed.

(** An idle driver with one root on demand: two frames are granted and a tick
    is requested; a root in mode never is left alone. *)
Lemma invalidate_state_witness :
  let w := oneRoot demand 0 in
  let w' := invalidate (Some 0%nat) (Some 2) w in
  framesOf w' 0%nat = 2
  /\ running w' = true
  /\ rafPending w' = [1%nat]
  /\ invalidate (Some 0%nat) (Some 2) (oneRoot never 0) = oneRoot never 0.
Proof.
  cbv zeta.
  destruct (invalidate_state 0%nat (Some 2) (oneRoot demand 0)) as [_ H].
  destruct H as (Hs & _ & Hr & Hq & _); [repeat split; discriminate |].
  destruct (Hq eq_refl) as [Hp _].
  destruct (invalidate_state 0%nat (Some 2) (oneRoot never 0)) as [Hn _].
  splits.
  - exact (f_equal (fun st => frames (internal st)) Hs).
  - exact Hr.
  - exact Hp.
  - apply Hn. right; right; reflexivity.
Defined.

(** ** Processing one root *)

Section RootProcessing.

Context {clockOps : ClockOps}.

(** The guard of lines 109-113, read as a condition to skip the root. *)
Lemma due_false_iff (st : RootState) :
  due st = false
  <-> active (internal st) = false
      \/ (frameloop st <> always /\ frames (internal st) <= 0)
      \/ presenting st = true.
Proof.
  unfold due.
  destruct (active (internal st)), (presenting st), (frameloop st); simpl;
    destruct (Z.gtb_spec (frames (internal st)) 0); simpl;
    intuition (try congruence; try lia).
Qed.

(** C4 (as amended).  During a tick a root is skipped, adding nothing to
    [repeat] and running nothing, exactly when it is inactive, or its mode is
    not always and its counter is not positive, or it is presenting.
    Otherwise its pipeline is run, its counter is decremented with a floor of
    zero, and [repeat] grows by 1 in mode always and by the decremented
    counter in the other modes. *)
Theorem renderRoot_contribution (timestamp : Q) (root : Root) (w : World) :
  let st := stores w (rootStore root) in
  let w' := renderRoot timestamp root w in
  (due st = false
   <-> active (internal st) = false
       \/ (frameloop st <> always /\ frames (internal st) <= 0)
       \/ presenting st = true)
  /\ (due st = false -> w' = w)
  /\ (due st = true ->
      repeat w' = repeat w
                  + (if Frameloop_eqb (frameloop st) always then 1
                     else Z.max 0 (frames (internal st) - 1))
      /\ frames (internal (stores w' (rootStore root))) = Z.max 0 (frames (internal st) - 1)
      /\ trace w' = trace w ++ pipelineEvents (stores w) (stageHeap w)
                                 (update_delta timestamp st) None (stages (internal st))).
Proof.
  intros st w'. subst st w'. split; [apply due_false_iff |].
  unfold renderRoot. split; intros Hd; rewrite Hd; [reflexivity |].
  pose proof (update_fst timestamp (rootStore root) None w) as Hf.
  pose proof (update_stores_same timestamp (rootStore root) None w) as Hs.
  pose proof (update_trace timestamp (rootStore root) None w) as Ht.
  destruct (update timestamp (rootStore root) None w) as [n w1]; simpl in *.
  rewrite Hs, Ht, Hf. repeat split.
Qed.


End RootProcessing.

(** C4 (as stated, refuted).  A root in mode never with no pending frame,
    active and not presenting, is skipped by the tick, although it is not
    inactive, not on demand with a counter of zero, and not presenting. *)
Lemma renderRoot_skips_never_mode :
  let w := oneRoot never 0 in
  let root := {| rootStore := 0%nat |} in
  let st := stores w (rootStore root) in
  renderRoot (clockOps := stoppedClock) 16 root w = w
  /\ repeat (renderRoot (clockOps := stoppedClock) 16 root w) = repeat w
  /\ ~ (active (internal st) = false
        \/ (frameloop st = demand /\ frames (internal st) = 0)
        \/ presenting st = true).
Proof.
  repeat split. simpl. intros [H | [[H _] | H]]; discriminate.
Qed.

(** A root on demand with three pending frames adds two, a root in mode
    always adds one, a root on demand with none is skipped. *)
Lemma renderRoot_contribution_witness :
  let root := {| rootStore := 0%nat |} in
  repeat (renderRoot (clockOps := stoppedClock) 16 root (oneRoot demand 3))
  = repeat (oneRoot demand 3) + 2
  /\ repeat (renderRoot (clockOps := stoppedClock) 16 root (oneRoot always 0))
     = repeat (oneRoot always 0) + 1
  /\ renderRoot (clockOps := stoppedClock) 16 root (oneRoot demand 0) = oneRoot demand 0.
Proof.
  cbv zeta. splits.
  - destruct (renderRoot_contribution (clockOps := stoppedClock) 16
                {| rootStore := 0%nat |} (oneRoot demand 3)) as (_ & _ & H).
    destruct (H eq_refl) as [-> _]. reflexivity.
  - destruct (renderRoot_contribution (clockOps := stoppedClock) 16
                {| rootStore := 0%nat |} (oneRoot always 0)) as (_ & _ & H).
    destruct (H eq_refl) as [-> _]. reflexivity.
  - destruct (renderRoot_contribution (clockOps := stoppedClock) 16
                {| rootStore := 0%nat |} (oneRoot demand 0)) as (_ & H & _).
    apply H. reflexivity.
Defined.


(** ** [advance] *)

Lemma noEffects_noTail evs : noEffects evs = true -> noTail evs = true.
Proof.
  unfold noEffects, noTail. rewrite !forallb_forall. intros H e He.
  specialize (H e He). destruct e as [[] ? ?| | |]; simpl in *; congruence.
Qed.

Lemma noTail_app a b : noTail (a ++ b) = noTail a && noTail b.
Proof. apply forallb_app. Qed.

Lemma effectEvents_noTail p timestamp w : p <> Tail -> noTail (effectEvents p timestamp w) = true.
Proof.
  intros Hp. unfold noTail, effectEvents. apply forallb_forall.
  intros e He. apply in_map_iff in He as (cb & <- & _). destruct p; congruence.
Qed.

Section Advance.

Context {clockOps : ClockOps}.

Lemma updateAll_rootWork timestamp l w :
  rootWork w (fold_left (fun w root => snd (update timestamp (rootStore root) None w)) l w).
Proof.
  revert w; induction l as [|root l IH]; intros w; simpl; [apply rootWork_refl |].
  eapply rootWork_trans; [apply update_rootWork | apply IH].
Qed.

(** The middle of [advance] (lines 151-152). *)
Lemma advance_updates_rootWork timestamp state xrFrame w :
  rootWork w
    match state with
    | None => fold_left (fun w root => snd (update timestamp (rootStore root) None w)) (roots w) w
    | Some state => snd (update timestamp state xrFrame w)
    end.
Proof. destruct state; [apply update_rootWork | apply updateAll_rootWork]. Qed.

(** C9.  [advance(timestamp, true, state)] calls the global effects, then
    runs [update] once, for the given root only, handing the frame to every
    stage of its pipeline, then calls the global after-effects; it leaves the
    driver's flags and the host's queue as they were.  Whatever its
    arguments, [advance] calls no tail effect, does not touch [running] and
    requests no tick. *)
Theorem advance_one_root (timestamp : Q) (state : StoreId) (xrFrame : option XRFrame)
    (w : World) :
  let st := stores w state in
  let w' := advance timestamp (Some true) (Some state) xrFrame w in
  trace w' = trace w
             ++ effectEvents Pre timestamp w
             ++ pipelineEvents (stores w) (stageHeap w) (update_delta timestamp st) xrFrame
                  (stages (internal st))
             ++ effectEvents Post timestamp w
  /\ stores w' state = update_state timestamp st
  /\ (forall x, x <> state -> stores w' x = stores w x)
  /\ sameControl w w'
  /\ advance timestamp None (Some state) xrFrame w = w'
  /\ (forall runGlobalEffects target,
        let w'' := advance timestamp runGlobalEffects target xrFrame w in
        running w'' = running w
        /\ rafPending w'' = rafPending w
        /\ rafNext w'' = rafNext w
        /\ exists evs, trace w'' = trace w ++ evs /\ noTail evs = true).
Proof.
  intros st w'. subst st w'. unfold advance; simpl.
  rewrite !run_eq.
  set (w1 := set_trace (trace w ++ effectEvents Pre timestamp w) w).
  pose proof (update_trace timestamp state xrFrame w1) as Ht.
  pose proof (update_stores_same timestamp state xrFrame w1) as Hs.
  pose proof (update_control timestamp state xrFrame w1) as Hc.
  pose proof (fun x => update_stores_other timestamp state xrFrame w1 x) as Ho.
  destruct (update timestamp state xrFrame w1) as [n w2]; simpl in *.
  destruct Hc as (C1 & C2 & C3 & C4 & C5 & C6 & C7 & C8 & C9 & C10 & C11).
  splits; auto.
  - rewrite Ht.
    replace (effectEvents Post timestamp w2) with (effectEvents Post timestamp w)
      by (unfold effectEvents; simpl; now rewrite C2).
    rewrite <- !app_assoc. reflexivity.
  - unfold sameControl; simpl; splits; auto.
  - intros runGlobalEffects target. cbv zeta.
    set (wa := if default true runGlobalEffects then _ else w).
    assert (Ha : running wa = running w /\ rafPending wa = rafPending w
                 /\ rafNext wa = rafNext w
                 /\ exists evs, trace wa = trace w ++ evs /\ noTail evs = true).
    { subst wa. destruct (default true runGlobalEffects).
      - simpl. splits; auto. eexists; split; [reflexivity |].
        apply effectEvents_noTail; discriminate.
      - splits; auto. exists []; split; [now rewrite app_nil_r | reflexivity]. }
    destruct Ha as (R1 & R2 & R3 & ea & R4 & R5).
    pose proof (advance_updates_rootWork timestamp target xrFrame wa) as Hw.
    set (wb := match target with Some _ => _ | None => _ end) in *.
    destruct Hw as (A1 & A2 & A3 & A4 & A5 & A6 & A7 & A8 & (eb & A9 & N) & _ & _).
    destruct (default true runGlobalEffects); simpl.
    + rewrite run_eq; simpl. splits; try congruence.
      exists (ea ++ eb ++ effectEvents Post timestamp wb); split.
      * rewrite A9, R4, <- !app_assoc. reflexivity.
      * rewrite !noTail_app, R5, (noEffects_noTail _ N), effectEvents_noTail;
          [reflexivity | discriminate].
    + splits; try congruence.
      exists (ea ++ eb); split.
      * rewrite A9, R4, <- !app_assoc. reflexivity.
      * rewrite !noTail_app, R5, (noEffects_noTail _ N). reflexivity.
Qed.

End Advance.

(** ** The tick *)

Section Tick.

Context {clockOps : ClockOps}.

(** The guards on the length of the arrays (lines 75, 119, 124) change
    nothing: [run] on an empty array does nothing. *)
Lemma run_guarded p timestamp w :
  (if (length (subsOf p w) =? 0)%nat then w else run p timestamp w) = run p timestamp w.
Proof.
  unfold run. destruct (subsOf p w); reflexivity.
Qed.

(** Once the one-shot flag is cleared the loop over the roots cannot throw. *)
Lemma forEach_completes timestamp l w :
  init w = false -> fst (forEach (loopRoot timestamp) l w) = Normal.
Proof.
  revert w; induction l as [|root l IH]; intros w Hi; simpl; [reflexivity |].
  pose proof (loopRoot_rootWork timestamp root w) as H.
  unfold loopRoot, installStages in *. rewrite Hi in *. simpl in *.
  apply IH. apply H. exact Hi.
Qed.

(** The world when the loop over the roots starts (lines 70-75). *)
Lemma loop_eq timestamp w :
  let w0 := run Pre timestamp
              (set_repeat 0 (set_running true (set_frame (rafNext w)
                 (set_raf (rafPending w ++ [rafNext w]) (S (rafNext w)) w)))) in
  loop timestamp w
  = match forEach (loopRoot timestamp) (roots w) w0 with
    | (Throw, wf) => (Throw, wf)
    | (Normal, wf) =>
        if repeat wf =? 0
        then (Normal, cancelAnimationFrame (frame wf)
                        (set_running false (run Tail timestamp (run Post timestamp wf))))
        else (Normal, run Post timestamp wf)
    end.
Proof.
  unfold loop, requestAnimationFrame. cbv zeta. 
  change (globalEffects ?x) with (subsOf Pre x).
  change (globalAfterEffects ?x) with (subsOf Post x).
  change (globalTailEffects ?x) with (subsOf Tail x).
  rewrite run_guarded.
  match goal with
  | |- context [roots (run Pre timestamp ?x)] =>
      replace (roots (run Pre timestamp x)) with (roots w) by now rewrite run_eq
  end.
  destruct (forEach _ _ _) as [[|] wf]; [| reflexivity].
  rewrite run_guarded.
  replace (repeat (run Post timestamp wf)) with (repeat wf) by now rewrite run_eq.
  destruct (repeat wf =? 0); [| reflexivity].
  rewrite run_guarded. simpl frame. now rewrite !run_eq.
Qed.

(** The end of the tick (lines 118-129) leaves the flag and the stages. *)
Lemma loop_end_fields timestamp wf :
  let w' := if repeat wf =? 0
            then cancelAnimationFrame (frame wf)
                   (set_running false (run Tail timestamp (run Post timestamp wf)))
            else run Post timestamp wf in
  init w' = init wf /\ stageHeap w' = stageHeap wf /\ stores w' = stores wf
  /\ repeat w' = repeat wf.
Proof.
  cbv zeta. destruct (repeat wf =? 0); rewrite !run_eq; repeat split.
Qed.

(** What a tick does to the one-shot flag and to the stages, by cases on the
    flag and the root set. *)
Lemma loop_install_cases (timestamp : Q) (w : World) :
  let w' := snd (loop timestamp w) in
  (init w = false ->
   fst (loop timestamp w) = Normal /\ init w' = false /\ stageHeap w' = stageHeap w)
  /\ (roots w = [] ->
      fst (loop timestamp w) = Normal /\ init w' = init w /\ stageHeap w' = stageHeap w)
  /\ (forall root rest updateStage renderStage,
        init w = true ->
        roots w = root :: rest ->
        getStage (stores w (rootStore root)) "update" = Some updateStage ->
        getStage (stores w (rootStore root)) "render" = Some renderStage ->
        fst (loop timestamp w) = Normal
        /\ init w' = false
        /\ stageHeap w'
           = stageHeap (Stage_add renderStage renderCallback (rootStore root)
                          (Stage_add updateStage frameCallback (rootStore root) w))).
Proof.
  cbv zeta. rewrite loop_eq. cbv zeta.
  set (w0 := run Pre timestamp _).
  assert (H0 : init w0 = init w /\ stageHeap w0 = stageHeap w /\ stores w0 = stores w)
    by (subst w0; rewrite run_eq; repeat split).
  destruct H0 as (Hi0 & Hh0 & Hs0).
  splits.
  - intros Hi. rewrite <- Hi0 in Hi.
    pose proof (forEach_completes timestamp (roots w) w0 Hi) as Hc.
    pose proof (forEach_rootWork timestamp (roots w) w0) as Hw.
    destruct (forEach _ _ _) as [c wf]; simpl in Hc, Hw; subst c.
    destruct Hw as (_ & _ & _ & _ & _ & _ & _ & _ & _ & Hinit & _).
    destruct (Hinit Hi) as [Hif Hhf].
    destruct (loop_end_fields timestamp wf) as (E1 & E2 & _).
    destruct (repeat wf =? 0); simpl in *; rewrite E1, E2; splits; congruence.
  - intros ->. simpl.
    destruct (loop_end_fields timestamp w0) as (E1 & E2 & _).
    destruct (repeat w0 =? 0); simpl in *; rewrite E1, E2; splits; congruence.
  - intros root rest updateStage renderStage Hi -> Hu Hr. simpl.
    unfold loopRoot, installStages. rewrite Hi0, Hi, Hs0, Hu. simpl.
    rewrite Hs0, Hr.
    set (wi := set_init false _).
    assert (Hii : init (renderRoot timestamp root wi) = false
                  /\ stageHeap (renderRoot timestamp root wi) = stageHeap wi).
    { destruct (renderRoot_rootWork timestamp root wi)
        as (_ & _ & _ & _ & _ & _ & _ & _ & _ & Hinit & _). apply Hinit. reflexivity. }
    destruct Hii as [Hir Hhr].
    pose proof (forEach_completes timestamp rest _ Hir) as Hc.
    pose proof (forEach_rootWork timestamp rest (renderRoot timestamp root wi)) as Hw.
    destruct (forEach _ _ _) as [c wf]; simpl in Hc, Hw; subst c.
    destruct Hw as (_ & _ & _ & _ & _ & _ & _ & _ & _ & Hinit & _).
    destruct (Hinit Hir) as [Hif Hhf].
    destruct (loop_end_fields timestamp wf) as (E1 & E2 & _).
    assert (Hfinal : stageHeap wi
                     = stageHeap (Stage_add renderStage renderCallback (rootStore root)
                                    (Stage_add updateStage frameCallback (rootStore root) w))).
    { subst wi. simpl. rewrite Hh0. reflexivity. }
    destruct (repeat wf =? 0); simpl in *; rewrite E1, E2; splits; congruence.
Qed.

(** C2 (as amended).  The two standing stage entries are installed once per
    loop, not once per root.  A tick that finds the one-shot flag cleared
    installs nothing and leaves it cleared; a tick over an empty root set
    installs nothing and leaves the flag as it is; a tick that finds the flag
    set and a first root with an update and a render stage appends
    [frameCallback] to that update stage and [renderCallback] to that render
    stage, both owned by the first root, installs nothing for any other root,
    and clears the flag. *)
Theorem loop_installs_once (timestamp : Q) (w : World) :
  let w' := snd (loop timestamp w) in
  (init w = false ->
   fst (loop timestamp w) = Normal /\ init w' = false /\ stageHeap w' = stageHeap w)
  /\ (roots w = [] ->
      fst (loop timestamp w) = Normal /\ init w' = init w /\ stageHeap w' = stageHeap w)
  /\ (forall root rest updateStage renderStage,
        init w = true ->
        roots w = root :: rest ->
        getStage (stores w (rootStore root)) "update" = Some updateStage ->
        getStage (stores w (rootStore root)) "render" = Some renderStage ->
        fst (loop timestamp w) = Normal
        /\ init w' = false
        /\ stageHeap w'
           = stageHeap (Stage_add renderStage renderCallback (rootStore root)
                          (Stage_add updateStage frameCallback (rootStore root) w))).
Proof. exact (loop_install_cases timestamp w). Qed.

End Tick.

(** C2 (as stated, refuted).  Two live roots with stages of their own, each
    with a pending frame: after the first tick, and after the second, root 0
    holds its two entries and root 1 holds none. *)
Lemma loop_installs_for_first_root_only :
  let w1 := snd (loop (clockOps := stoppedClock) 16 (twoRoots 1 1)) in
  let w2 := snd (loop (clockOps := stoppedClock) 32 w1) in
  standingEntries w1 {| rootStore := 0%nat |} = Some (1%nat, 1%nat)
  /\ standingEntries w1 {| rootStore := 1%nat |} = Some (0%nat, 0%nat)
  /\ standingEntries w2 {| rootStore := 1%nat |} = Some (0%nat, 0%nat)
  /\ ~ (forall root, In root (roots w1) -> standingEntries w1 root = Some (1%nat, 1%nat)).
Proof.
  cbv zeta. splits; try reflexivity.
  intros H. specialize (H {| rootStore := 1%nat |} (or_intror (or_introl eq_refl))).
  discriminate H.
Qed.

(** Two roots: the first tick installs the entries of root 0 and clears the
    flag, the second tick installs nothing. *)
Lemma loop_installs_once_witness :
  let w := twoRoots 1 1 in
  let w' := snd (loop (clockOps := stoppedClock) 16 w) in
  fst (loop (clockOps := stoppedClock) 16 w) = Normal
  /\ init w' = false
  /\ stageSubscribers (stageHeap w' 0%nat)
     = [ {| entryRef := frameCallback; entryStore := 0%nat |} ]
  /\ stageSubscribers (stageHeap w' 1%nat)
     = [ {| entryRef := renderCallback; entryStore := 0%nat |} ]
  /\ stageHeap (snd (loop (clockOps := stoppedClock) 32 w')) = stageHeap w'.
Proof.
  cbv zeta.
  destruct (loop_installs_once (clockOps := stoppedClock) 16 (twoRoots 1 1)) as (_ & _ & H).
  destruct (H {| rootStore := 0%nat |} [ {| rootStore := 1%nat |} ] 0%nat 1%nat
              eq_refl eq_refl eq_refl eq_refl) as (Hc & Hi & Hh).
  destruct (loop_installs_once (clockOps := stoppedClock) 32
              (snd (loop (clockOps := stoppedClock) 16 (twoRoots 1 1)))) as (H2 & _ & _).
  destruct (H2 Hi) as (_ & _ & Hh2).
  splits.
  - exact Hc.
  - exact Hi.
  - rewrite Hh. reflexivity.
  - rewrite Hh. reflexivity.
  - exact Hh2.
Defined.

(** ** The end of a tick *)

Lemma filter_fresh (h : nat) (l : list nat) :
  Forall (fun x => (x < h)%nat) l ->
  List.filter (fun x => negb (Nat.eqb x h)) (l ++ [h]) = l.
Proof.
  induction 1 as [|x l Hx _ IH]; simpl.
  - now rewrite Nat.eqb_refl.
  - destruct (Nat.eqb_spec x h); [lia |]. simpl. now rewrite IH.
Qed.

Section EndOfTick.

Context {clockOps : ClockOps}.

(** A tick completes exactly when it has nothing to install or finds the two
    stages of the first root. *)
Lemma loop_completes timestamp w :
  fst (loop timestamp w) = Normal
  <-> init w = false
      \/ roots w = []
      \/ exists root rest updateStage renderStage,
           roots w = root :: rest
           /\ getStage (stores w (rootStore root)) "update" = Some updateStage
           /\ getStage (stores w (rootStore root)) "render" = Some renderStage.
Proof.
  split.
  - intros Hc. destruct (init w) eqn:Hi; [| now left]. right.
    destruct (roots w) as [|root rest] eqn:Hr; [now left |]. right.
    rewrite loop_eq in Hc. cbv zeta in Hc. rewrite Hr in Hc. simpl in Hc.
    unfold loopRoot, installStages in Hc. rewrite run_eq in Hc. simpl in Hc.
    rewrite Hi in Hc.
    destruct (getStage (stores w (rootStore root)) "update") eqn:Hu; [| discriminate].
    simpl in Hc.
    destruct (getStage (stores w (rootStore root)) "render") eqn:Hv; [| discriminate].
    eauto 10.
  - pose proof (loop_install_cases timestamp w) as (H1 & H2 & H3).
    intros [Hi | [Hr | (root & rest & u & v & Hr & Hu & Hv)]].
    + apply H1, Hi.
    + apply H2, Hr.
    + destruct (init w) eqn:Hi; [| apply H1; reflexivity].
      eapply H3; eauto.
Qed.

(** C7.  A tick that completes ends in one of two ways.  When [repeat] is
    zero, every tail effect is called once, in the order of its array, after
    the post-effects; the driver is idle and the request made by this tick
    is cancelled, so the host's queue is as the tick found it.  When [repeat]
    is not zero, no tail effect is called, the driver is running and the
    request made by this tick is pending. *)
Theorem loop_end_of_tick (timestamp : Q) (w : World) :
  fst (loop timestamp w) = Normal ->
  Forall (fun h => (h < rafNext w)%nat) (rafPending w) ->
  endOfTick timestamp w (snd (loop timestamp w)).
Proof.
  intros Hc Hq. rewrite loop_eq in *. cbv zeta in *.
  set (w0 := run Pre timestamp _) in *.
  pose proof (forEach_rootWork timestamp (roots w) w0) as Hw.
  destruct (forEach _ _ _) as [[|] wf]; simpl in Hw;
    [| destruct (repeat wf =? 0); discriminate Hc || discriminate].
  destruct Hw as (A1 & A2 & A3 & A4 & A5 & A6 & A7 & A8 & (work & A9 & N) & _ & _).
  subst w0. rewrite run_eq in *. simpl in *.
  assert (Hpost : effectEvents Post timestamp wf = effectEvents Post timestamp w)
    by (unfold effectEvents; simpl; now rewrite A2).
  assert (Htail : forall x, globalTailEffects x = globalTailEffects wf ->
                            effectEvents Tail timestamp x = effectEvents Tail timestamp w)
    by (intros x Hx; unfold effectEvents; simpl; now rewrite Hx, A3).
  exists work. split; [exact N |].
  destruct (Z.eqb_spec (repeat wf) 0) as [Hz | Hnz]; simpl; rewrite !run_eq; simpl.
  - split; [| intros; congruence]. intros _. splits.
    + rewrite Htail by reflexivity. rewrite A9, Hpost, <- !app_assoc. reflexivity.
    + reflexivity.
    + rewrite A6, A7. apply filter_fresh, Hq.
  - split; [intros; congruence |]. intros _. splits.
    + rewrite A9, Hpost, <- !app_assoc. reflexivity.
    + exact A5.
    + exact A7.
Qed.

End EndOfTick.

(** One frame on demand: the tick spends it and ends with [repeat] at zero. *)
Lemma loop_end_of_tick_witness :
  endOfTick 16 (invalidatedWorld 1)
    (snd (loop (clockOps := stoppedClock) 16 (invalidatedWorld 1)))
  /\ repeat (snd (loop (clockOps := stoppedClock) 16 (invalidatedWorld 1))) = 0.
Proof.
  split.
  - apply (loop_end_of_tick (clockOps := stoppedClock) 16 (invalidatedWorld 1)).
    + reflexivity.
    + constructor.
  - reflexivity.
Defined.

(** The scenario of one frame on demand: the host fires the request made by
    [invalidate]; the tick calls the pre-effect, the subscription of the
    update stage, the render of the render stage, the post-effect and, its
    counter being spent, the tail effect; the driver is idle and the queue of
    the host is empty. *)
Example one_frame_on_demand :
  let w' := snd (fireFrame (clockOps := stoppedClock) 16 (requestedWorld 1)) in
  rafPending (requestedWorld 1) = [1%nat]
  /\ running (requestedWorld 1) = true
  /\ trace w' = [EvEffect Pre 11%nat 16; EvSubscription 7%nat 0%nat (Qmin 0 (1 # 10)) None;
                 EvRender 0%nat; EvEffect Post 22%nat 16; EvEffect Tail 33%nat 16]
  /\ running w' = false
  /\ rafPending w' = []
  /\ framesOf w' 0%nat = 0.
Proof. repeat split. Qed.

(** With two frames requested the first tick asks for another and calls no
    tail effect. *)
Example two_frames_on_demand :
  let w' := snd (fireFrame (clockOps := stoppedClock) 16 (requestedWorld 2)) in
  trace w' = [EvEffect Pre 11%nat 16; EvSubscription 7%nat 0%nat (Qmin 0 (1 # 10)) None;
              EvRender 0%nat; EvEffect Post 22%nat 16]
  /\ running w' = true
  /\ rafPending w' = [2%nat]
  /\ framesOf w' 0%nat = 1.
Proof. repeat split. Qed.

(** ** The range of the pending-frame counter *)

Lemma frameShrink_range w w' :
  (forall s, frameShrink (frames (internal (stores w s))) (frames (internal (stores w' s)))) ->
  framesInRange w ->
  framesInRange w' /\ (forall s, framesOf w' s <= framesOf w s).
Proof.
  unfold framesInRange, framesOf, frameShrink. intros Hs Hr.
  split; intros s; specialize (Hs s); specialize (Hr s); lia.
Qed.

Lemma invalidateState_range state frameCount w :
  0 <= default 1 frameCount ->
  framesInRange w -> framesInRange (invalidateState state frameCount w).
Proof.
  intros Hn Hr. unfold invalidateState.
  destruct (_ || _ || _); [exact Hr |].
  assert (Hm : framesInRange
                 (modifyState state
                    (fun st => set_frames (Z.min 60 (frames (internal st) + default 1 frameCount)) st)
                    w)).
  { intros s. unfold modifyState; simpl. specialize (Hr state) as Hs.
    destruct (decide (s = state)) as [-> | Hne].
    - rewrite fn_lookup_insert; simpl. lia.
    - rewrite fn_lookup_insert_ne by congruence. apply Hr. }
  destruct (running _); exact Hm.
Qed.

Lemma invalidateAll_range l w :
  framesInRange w ->
  framesInRange (fold_left (fun w root => invalidateState (rootStore root) None w) l w).
Proof.
  revert w; induction l as [|root l IH]; intros w Hr; simpl; [exact Hr |].
  apply IH, invalidateState_range; [simpl; lia | exact Hr].
Qed.

Section Range.

Context {clockOps : ClockOps}.

Lemma loop_frameShrink timestamp w s :
  frameShrink (framesOf w s) (framesOf (snd (loop timestamp w)) s).
Proof.
  unfold framesOf. rewrite loop_eq. cbv zeta.
  set (w0 := run Pre timestamp _).
  assert (H0 : stores w0 = stores w) by (subst w0; now rewrite run_eq).
  rewrite <- H0.
  pose proof (forEach_rootWork timestamp (roots w) w0) as Hw.
  destruct (forEach _ _ _) as [c wf]; simpl in Hw.
  destruct Hw as (_ & _ & _ & _ & _ & _ & _ & _ & _ & _ & Hs).
  destruct (loop_end_fields timestamp wf) as (_ & _ & E & _).
  destruct c; [| apply Hs].
  destruct (repeat wf =? 0); simpl in *; rewrite E; apply Hs.
Qed.

Lemma advance_frameShrink timestamp runGlobalEffects state xrFrame w s :
  frameShrink (framesOf w s)
    (framesOf (advance timestamp runGlobalEffects state xrFrame w) s).
Proof.
  unfold framesOf, advance. cbv zeta.
  set (wa := if default true runGlobalEffects then _ else w).
  assert (Ha : stores wa = stores w)
    by (subst wa; destruct (default true _); [now rewrite run_eq | reflexivity]).
  rewrite <- Ha.
  pose proof (advance_updates_rootWork timestamp state xrFrame wa) as Hw.
  set (wb := match state with Some _ => _ | None => _ end) in *.
  destruct Hw as (_ & _ & _ & _ & _ & _ & _ & _ & _ & _ & Hs).
  destruct (default true _); [rewrite run_eq; simpl |]; apply Hs.
Qed.

Lemma call_frameShrink w c s :
  isInvalidate c = false -> frameShrink (framesOf w s) (framesOf (call w c) s).
Proof.
  destruct c; simpl; intros Hc; try discriminate.
  - unfold fireFrame. destruct (rafPending w); [apply frameShrink_refl |].
    apply (loop_frameShrink timestamp (set_raf l (rafNext w) w) s).
  - apply loop_frameShrink.
  - apply advance_frameShrink.
  - unfold framesOf; simpl. apply frameShrink_refl.
  - unfold framesOf; simpl. apply frameShrink_refl.
Qed.

Lemma call_range w c :
  requestsFrames c -> framesInRange w -> framesInRange (call w c).
Proof.
  intros Hc Hr. destruct (isInvalidate c) eqn:Hi.
  - destruct c as [| | state frameCount | | |]; try discriminate. simpl.
    destruct state as [state |].
    + apply invalidateState_range; [| exact Hr].
      destruct frameCount; simpl in *; lia.
    + apply invalidateAll_range, Hr.
  - eapply frameShrink_range; [| exact Hr].
    intros s. apply (call_frameShrink w c s Hi).
Qed.

(** C5 (as amended).  Starting from counters within [0, 60], every sequence
    of calls of [loop], [advance], [invalidate] with frame counts that are
    not negative, and registrations and removals of effects, leaves every
    counter within [0, 60].  [update] sets the counter of the root it
    processes to its value minus one, with a floor of zero, and no call other
    than [invalidate] raises a counter. *)
Theorem frames_stay_in_range (l : list Call) (w : World) :
  framesInRange w ->
  Forall requestsFrames l ->
  framesInRange (calls l w)
  /\ (forall timestamp state xrFrame,
        framesOf (snd (update timestamp state xrFrame w)) state
        = Z.max 0 (framesOf w state - 1))
  /\ (forall c s, isInvalidate c = false -> framesOf (call w c) s <= framesOf w s).
Proof.
  intros Hr Hl. splits.
  - unfold calls. revert w Hr; induction Hl as [|c l Hc _ IH]; intros w Hr; simpl.
    + exact Hr.
    + apply IH, call_range; assumption.
  - intros. unfold framesOf. rewrite update_stores_same. reflexivity.
  - intros c s Hc.
    apply (frameShrink_range w (call w c)); [| exact Hr].
    intros x. apply (call_frameShrink w c x Hc).
Qed.

End Range.

(** A request for a hundred frames, ticks, a request for all roots and a
    manual advance. *)
Lemma frames_stay_in_range_witness :
  framesInRange
    (calls (clockOps := stoppedClock)
       [CallInvalidate (Some 0%nat) (Some 100); CallFrame 16; CallInvalidate None None;
        CallLoop 32; CallAdvance 48 None None None]
       (oneRoot demand 0)).
Proof.
  apply (frames_stay_in_range (clockOps := stoppedClock)
           [CallInvalidate (Some 0%nat) (Some 100); CallFrame 16; CallInvalidate None None;
            CallLoop 32; CallAdvance 48 None None None]
           (oneRoot demand 0)).
  - intros s. simpl. lia.
  - repeat constructor. simpl. lia.
Defined.

(** C5 (as stated, refuted).  A negative frame count takes the counter of an
    eligible root below zero: from 0, [invalidate(state, -5)] leaves -5. *)
Lemma negative_frameCount_leaves_range :
  framesInRange (oneRoot demand 0)
  /\ framesOf (calls (clockOps := stoppedClock) [CallInvalidate (Some 0%nat) (Some (-5))]
                (oneRoot demand 0)) 0%nat = -5
  /\ ~ framesInRange
         (calls (clockOps := stoppedClock) [CallInvalidate (Some 0%nat) (Some (-5))]
            (oneRoot demand 0)).
Proof.
  splits.
  - intros s. simpl. lia.
  - reflexivity.
  - intros H. specialize (H 0%nat). simpl in H. vm_compute in H. destruct H as [H _].
    apply H. reflexivity.
Qed.

(** * Further properties of the code *)

(** ** The effect registry, continued *)

Lemma set_subs_same p w : set_subs p (subsOf p w) w = w.
Proof. destruct p; reflexivity. Qed.

Lemma set_subs_twice p l l' w : set_subs p l (set_subs p l' w) = set_subs p l w.
Proof. destruct p; reflexivity. Qed.

Lemma subsOf_set_subs_other p q l w : q <> p -> subsOf q (set_subs p l w) = subsOf q w.
Proof. destruct p, q; simpl; congruence. Qed.

Lemma registerAll_subsOf callbacks subs w :
  subsOf subs (registerAll callbacks subs w) = subsOf subs w ++ callbacks.
Proof.
  unfold registerAll. revert w; induction callbacks as [|cb l IH]; intros w; simpl.
  - now rewrite app_nil_r.
  - rewrite IH. unfold createSubs; simpl. rewrite subsOf_set_subs, <- app_assoc. reflexivity.
Qed.

Lemma registerAll_app a b subs w :
  registerAll (a ++ b) subs w = registerAll b subs (registerAll a subs w).
Proof. unfold registerAll. apply fold_left_app. Qed.

(** X1.  Registration followed by the call of its handle is a round trip:
    called at once, the handle gives back the world as it was; called after
    any number of later registrations in the same array, it removes the
    callback it was created for and keeps every other one in order. *)
Theorem createSubs_unsubscribe_round_trip (callback : Callback) (subs : Phase) (w : World)
    (later : list Callback) :
  let u := fst (createSubs callback subs w) in
  let w1 := snd (createSubs callback subs w) in
  unsubscribe u w1 = w
  /\ subsOf subs w1 = subsOf subs w ++ [callback]
  /\ subsOf subs (unsubscribe u (registerAll later subs w1)) = subsOf subs w ++ later.
Proof.
  cbv zeta. unfold createSubs, unsubscribe; simpl. splits.
  - rewrite subsOf_set_subs, (splice_at (subsOf subs w) [] callback), app_nil_r.
    rewrite set_subs_twice. apply set_subs_same.
  - apply subsOf_set_subs.
  - rewrite subsOf_set_subs, registerAll_subsOf, subsOf_set_subs, <- app_assoc. simpl.
    apply splice_at.
Qed.

Lemma splice_length {A : Type} (index : nat) (l : list A) :
  length (splice index 1 l)
  = (length l - (if (index <? length l)%nat then 1 else 0))%nat.
Proof.
  unfold splice. rewrite length_app, length_firstn, length_skipn.
  destruct (Nat.ltb_spec index (length l)); lia.
Qed.

Lemma splice_nth_before {A : Type} (index i : nat) (l : list A) :
  (i < index)%nat -> nth_error (splice index 1 l) i = nth_error l i.
Proof.
  intros Hi. unfold splice.
  destruct (Nat.lt_ge_cases i (length l)) as [Hl | Hl].
  - rewrite nth_error_app1 by (rewrite length_firstn; lia).
    rewrite nth_error_firstn. destruct (Nat.ltb_spec i index); [reflexivity | lia].
  - rewrite (proj2 (nth_error_None l i)) by lia.
    apply nth_error_None. rewrite length_app, length_firstn, length_skipn. lia.
Qed.

Lemma splice_nth_after {A : Type} (index i : nat) (l : list A) :
  (index <= i)%nat -> nth_error (splice index 1 l) i = nth_error l (S i).
Proof.
  intros Hi. unfold splice.
  destruct (Nat.lt_ge_cases index (length l)) as [Hl | Hl].
  - rewrite nth_error_app2 by (rewrite length_firstn; lia).
    rewrite length_firstn, nth_error_skipn. f_equal. lia.
  - rewrite (proj2 (nth_error_None l (S i))) by lia.
    apply nth_error_None. rewrite length_app, length_firstn, length_skipn. lia.
Qed.

(** X2.  The call of a handle removes at most one callback, the one that
    sits at the recorded index at the time of the call: the callbacks before
    the index keep their places, the ones behind it move up by one, the other
    two arrays are left alone, and an index at or past the end removes
    nothing. *)
Theorem unsubscribe_removes_at_index (u : Unsubscribe) (w : World) :
  let before := subsOf (unsubSubs u) w in
  let after := subsOf (unsubSubs u) (unsubscribe u w) in
  length after = (length before - (if (unsubIndex u <? length before)%nat then 1 else 0))%nat
  /\ (forall i, (i < unsubIndex u)%nat -> nth_error after i = nth_error before i)
  /\ (forall i, (unsubIndex u <= i)%nat -> nth_error after i = nth_error before (S i))
  /\ (forall p, p <> unsubSubs u -> subsOf p (unsubscribe u w) = subsOf p w)
  /\ ((length before <= unsubIndex u)%nat -> unsubscribe u w = w).
Proof.
  cbv zeta. unfold unsubscribe. rewrite subsOf_set_subs. splits.
  - apply splice_length.
  - intros i Hi. now apply splice_nth_before.
  - intros i Hi. now apply splice_nth_after.
  - intros p Hp. now apply subsOf_set_subs_other.
  - intros Hl. rewrite splice_past_end by exact Hl. apply set_subs_same.
Qed.

(** X3.  [run] calls every callback of the array once, with the timestamp, in
    the order of the array, and changes nothing else; a callback registered
    last is called last. *)
Theorem run_calls_in_order (p : Phase) (timestamp : Q) (w : World) (callback : Callback) :
  run p timestamp w
  = set_trace (trace w ++ map (fun cb => EvEffect p cb timestamp) (subsOf p w)) w
  /\ trace (run p timestamp (snd (createSubs callback p w)))
     = trace w ++ map (fun cb => EvEffect p cb timestamp) (subsOf p w)
         ++ [EvEffect p callback timestamp].
Proof.
  split; [apply run_eq |].
  rewrite run_eq. unfold effectEvents, createSubs; simpl.
  rewrite subsOf_set_subs, map_app. destruct p; reflexivity.
Qed.

(** ** [update], continued *)

Lemma sameConfig_refl st : sameConfig st st.
Proof. unfold sameConfig; splits; reflexivity. Qed.

Lemma sameConfig_trans st1 st2 st3 :
  sameConfig st1 st2 -> sameConfig st2 st3 -> sameConfig st1 st3.
Proof. unfold sameConfig; intuition congruence. Qed.

#[local] Hint Resolve sameConfig_refl : frameloop.

Lemma sameConfig_view sigma sigma' :
  (forall x, sameConfig (sigma x) (sigma' x)) -> sameView sigma sigma'.
Proof.
  intros H x. destruct (H x) as (_ & A & B & _ & _ & _ & _ & C). auto.
Qed.

Lemma sameConfig_due st st' :
  sameConfig st st' -> frameloop st = always -> due st' = due st.
Proof.
  intros (A & _ & B & _ & _ & C & _) Hm. unfold due, presenting.
  rewrite A, B, C, Hm. reflexivity.
Qed.

Section UpdateMore.

Context {clockOps : ClockOps}.

Lemma update_config t s f w x :
  sameConfig (stores w x) (stores (snd (update t s f w)) x).
Proof.
  destruct (decide (x = s)) as [-> | Hne].
  - rewrite update_stores_same. unfold sameConfig; splits; reflexivity.
  - rewrite update_stores_other by assumption. apply sameConfig_refl.
Qed.

(** X4.  [update] writes to the clock and to the counter of the root it is
    given and to nothing else: the mode, the render flag, the renderer, the
    stages and the subscriptions of that root, every other root state, the
    three arrays, the root set, the stage objects and the driver's variables
    and queue are as before. *)
Theorem update_footprint (timestamp : Q) (state : StoreId) (xrFrame : option XRFrame)
    (w : World) :
  let w' := snd (update timestamp state xrFrame w) in
  sameControl w w'
  /\ sameConfig (stores w state) (stores w' state)
  /\ (forall x, x <> state -> stores w' x = stores w x).
Proof.
  cbv zeta. splits.
  - apply update_control.
  - apply update_config.
  - intros x Hx. now apply update_stores_other.
Qed.

Lemma update_result_nonneg st : 0 <= update_result st.
Proof. unfold update_result. destruct (Frameloop_eqb _ _); lia. Qed.

(** X5.  The value of [update], which the tick adds to [repeat], is never
    negative: it is 1 in mode always whatever the counter, and the counter
    left behind in the other modes, so that it is zero exactly when the mode
    is not always and at most one frame was pending. *)
Theorem update_returns (timestamp : Q) (state : StoreId) (xrFrame : option XRFrame)
    (w : World) :
  let st := stores w state in
  let n := fst (update timestamp state xrFrame w) in
  let w' := snd (update timestamp state xrFrame w) in
  0 <= n
  /\ (frameloop st = always -> n = 1)
  /\ (frameloop st <> always -> n = frames (internal (stores w' state)))
  /\ (n = 0 <-> frameloop st <> always /\ frames (internal st) <= 1).
Proof.
  cbv zeta. rewrite update_fst, update_stores_same. unfold update_result, update_state; simpl.
  destruct (frameloop (stores w state)) eqn:Hm; simpl; splits;
    try lia; try congruence; try (intros; reflexivity);
    try (split; [intros H; split; [congruence | lia] | intros [_ H]; lia]).
  split; [intros H; discriminate H | intros [H _]; congruence].
Qed.

(** X6.  With a clock whose [getDelta] leaves the elapsed time alone (a
    stopped clock), two successive runs of [update] on a root in mode never
    hand to the stages of the second run the difference of the two
    timestamps, and leave the first timestamp as the old time and the second
    as the elapsed time of the clock. *)
Theorem update_never_twice (t1 t2 : Q) (state : StoreId) (f1 f2 : option XRFrame)
    (w : World) :
  (forall c, elapsedTime (snd (getDelta c)) = elapsedTime c) ->
  frameloop (stores w state) = never ->
  let w1 := snd (update t1 state f1 w) in
  let w2 := snd (update t2 state f2 w1) in
  trace w2 = trace w1 ++ pipelineEvents (stores w) (stageHeap w) (t2 - t1)%Q f2
                           (stages (internal (stores w state)))
  /\ elapsedTime (clock (stores w2 state)) = t2
  /\ oldTime (clock (stores w2 state)) = t1.
Proof.
  intros Hstop Hm. cbv zeta.
  pose proof (update_config t1 state f1 w) as Hc.
  destruct (update_control t1 state f1 w) as (_ & _ & _ & _ & Hh & _).
  pose proof (update_stores_same t1 state f1 w) as Hs1.
  set (w1 := snd (update t1 state f1 w)) in *.
  destruct (Hc state) as (Hm1 & _ & _ & _ & _ & _ & Hst & _).
  assert (He : elapsedTime (clock (stores w1 state)) = t1).
  { rewrite Hs1. unfold update_state, update_clock; simpl. rewrite Hm. reflexivity. }
  rewrite update_trace, update_stores_same.
  unfold update_delta, update_state, update_clock; simpl.
  rewrite Hm1, Hm; simpl. rewrite Hstop, He, Hh, Hst.
  splits; try reflexivity.
  f_equal. apply pipelineEvents_view, sameConfig_view, Hc.
Qed.

End UpdateMore.

(** After a first tick has installed the stage entries, two manual frames at
    16 and 33. *)
Lemma update_never_twice_witness :
  let w := snd (loop (clockOps := stoppedClock) 8 (oneRoot never 0)) in
  let w1 := snd (update (clockOps := stoppedClock) 16 0%nat None w) in
  let w2 := snd (update (clockOps := stoppedClock) 33 0%nat None w1) in
  trace w2 = trace w1 ++ [EvSubscription 7%nat 0%nat (33 - 16) None; EvRender 0%nat]
  /\ elapsedTime (clock (stores w2 0%nat)) = 33%Q
  /\ oldTime (clock (stores w2 0%nat)) = 16%Q.
Proof.
  exact (update_never_twice (clockOps := stoppedClock) 16 33 0%nat None None
           (snd (loop (clockOps := stoppedClock) 8 (oneRoot never 0)))
           (fun c => eq_refl) eq_refl).
Defined.

(** ** The tick, continued *)

Section TickMore.

Context {clockOps : ClockOps}.

Lemma installStages_stores root w : stores (snd (installStages root w)) = stores w.
Proof.
  unfold installStages. destruct (init w); [| reflexivity].
  destruct (getStage _ "update"); simpl; [| reflexivity].
  destruct (getStage _ "render"); reflexivity.
Qed.

Lemma installStages_repeat root w : repeat (snd (installStages root w)) = repeat w.
Proof.
  unfold installStages. destruct (init w); [| reflexivity].
  destruct (getStage _ "update"); simpl; [| reflexivity].
  destruct (getStage _ "render"); reflexivity.
Qed.

Lemma renderRoot_config t root w x :
  sameConfig (stores w x) (stores (renderRoot t root w) x).
Proof.
  unfold renderRoot. destruct (due _); [| apply sameConfig_refl].
  pose proof (update_config t (rootStore root) None w x) as H.
  destruct (update t (rootStore root) None w) as [n w1]. exact H.
Qed.

Lemma renderRoot_repeat t root w :
  repeat (renderRoot t root w)
  = repeat w + (if due (stores w (rootStore root))
                then update_result (stores w (rootStore root)) else 0).
Proof.
  unfold renderRoot. destruct (due _); [| lia].
  pose proof (update_fst t (rootStore root) None w) as H.
  destruct (update t (rootStore root) None w) as [n w1]. simpl in *. now rewrite H.
Qed.

Lemma renderRoot_idle_store t root w s :
  due (stores w s) = false -> stores (renderRoot t root w) s = stores w s.
Proof.
  intros Hd. unfold renderRoot.
  destruct (due (stores w (rootStore root))) eqn:Hr; [| reflexivity].
  assert (Hne : s <> rootStore root) by (intros ->; congruence).
  pose proof (update_stores_other t (rootStore root) None w s Hne) as H.
  destruct (update t (rootStore root) None w) as [n w1]. exact H.
Qed.

Lemma loopRoot_config t root w x :
  sameConfig (stores w x) (stores (snd (loopRoot t root w)) x).
Proof.
  unfold loopRoot. pose proof (installStages_stores root w) as Hs.
  destruct (installStages root w) as [[|] w1]; simpl in *.
  - rewrite <- Hs. apply renderRoot_config.
  - rewrite Hs. apply sameConfig_refl.
Qed.

Lemma loopRoot_repeat_mono t root w : repeat w <= repeat (snd (loopRoot t root w)).
Proof.
  unfold loopRoot. pose proof (installStages_repeat root w) as Hr.
  destruct (installStages root w) as [[|] w1]; simpl in *; [| lia].
  rewrite renderRoot_repeat, Hr.
  destruct (due _); [| lia]. pose proof (update_result_nonneg (stores w1 (rootStore root))). lia.
Qed.

Lemma loopRoot_idle_store t root w s :
  due (stores w s) = false -> stores (snd (loopRoot t root w)) s = stores w s.
Proof.
  intros Hd. unfold loopRoot. pose proof (installStages_stores root w) as Hs.
  destruct (installStages root w) as [[|] w1]; simpl in *.
  - rewrite <- Hs in Hd |- *. now apply renderRoot_idle_store.
  - now rewrite Hs.
Qed.

Lemma forEach_repeat_mono t l w : repeat w <= repeat (snd (forEach (loopRoot t) l w)).
Proof.
  revert w; induction l as [|root l IH]; intros w; simpl; [lia |].
  pose proof (loopRoot_repeat_mono t root w) as H.
  destruct (loopRoot t root w) as [[|] w1]; simpl in *; [| exact H].
  specialize (IH w1). lia.
Qed.

Lemma forEach_idle_store t l w s :
  due (stores w s) = false -> stores (snd (forEach (loopRoot t) l w)) s = stores w s.
Proof.
  revert w; induction l as [|root l IH]; intros w Hd; simpl; [reflexivity |].
  pose proof (loopRoot_idle_store t root w s Hd) as H.
  destruct (loopRoot t root w) as [[|] w1]; simpl in *; [| exact H].
  rewrite IH; [exact H | now rewrite H].
Qed.

Lemma loopRoot_normal t root w w1 :
  loopRoot t root w = (Normal, w1) ->
  exists wi, stores wi = stores w /\ repeat wi = repeat w /\ w1 = renderRoot t root wi.
Proof.
  unfold loopRoot. pose proof (installStages_stores root w) as Hs.
  pose proof (installStages_repeat root w) as Hr.
  destruct (installStages root w) as [[|] wi]; simpl in *; [| discriminate].
  intros [= <-]. eauto.
Qed.

(** A root in mode always that is due adds one to [repeat] when the loop
    over the roots reaches it. *)
Lemma forEach_always t l w root :
  fst (forEach (loopRoot t) l w) = Normal ->
  In root l ->
  frameloop (stores w (rootStore root)) = always ->
  due (stores w (rootStore root)) = true ->
  repeat w + 1 <= repeat (snd (forEach (loopRoot t) l w)).
Proof.
  revert w; induction l as [|r l IH]; intros w Hc Hin Hm Hd; simpl in *; [contradiction |].
  pose proof (loopRoot_config t r w (rootStore root)) as Hcfg.
  pose proof (loopRoot_repeat_mono t r w) as Hmono.
  destruct Hin as [-> | Hin].
  - destruct (loopRoot t root w) as [[|] w1] eqn:Hl; simpl in *; [| discriminate].
    apply loopRoot_normal in Hl as (wi & Hs & Hr & ->).
    pose proof (forEach_repeat_mono t l (renderRoot t root wi)) as Hrest.
    rewrite renderRoot_repeat, Hs, Hd in Hrest.
    unfold update_result in Hrest. rewrite Hm in Hrest. simpl in Hrest. lia.
  - destruct (loopRoot t r w) as [[|] w1]; simpl in *; [| discriminate].
    assert (Hm1 : frameloop (stores w1 (rootStore root)) = always)
      by (destruct Hcfg as (-> & _); exact Hm).
    specialize (IH w1 Hc Hin Hm1).
    rewrite (sameConfig_due _ _ Hcfg Hm) in IH. specialize (IH Hd). lia.
Qed.

(** X7.  A tick that completes over a root set holding an active root in
    mode always that is not presenting ends with [repeat] at one or more,
    whatever the counters: the driver stays running, the request made by the
    tick stays pending and no tail effect is called. *)
Theorem loop_always_keeps_running (timestamp : Q) (w : World) (root : Root) :
  fst (loop timestamp w) = Normal ->
  In root (roots w) ->
  frameloop (stores w (rootStore root)) = always ->
  active (internal (stores w (rootStore root))) = true ->
  presenting (stores w (rootStore root)) = false ->
  let w' := snd (loop timestamp w) in
  1 <= repeat w'
  /\ running w' = true
  /\ rafPending w' = rafPending w ++ [rafNext w]
  /\ exists evs, trace w' = trace w ++ evs /\ noTail evs = true.
Proof.
  intros Hc Hin Hm Ha Hp. cbv zeta. rewrite loop_eq in *. cbv zeta in *.
  set (w0 := run Pre timestamp _) in *.
  assert (H0 : stores w0 = stores w /\ repeat w0 = 0 /\ running w0 = true
               /\ rafPending w0 = rafPending w ++ [rafNext w]
               /\ trace w0 = trace w ++ effectEvents Pre timestamp w)
    by (subst w0; rewrite run_eq; splits; reflexivity).
  destruct H0 as (Hs0 & Hr0 & Hrun0 & Hq0 & Ht0).
  assert (Hd : due (stores w0 (rootStore root)) = true)
    by (rewrite Hs0; unfold due; rewrite Ha, Hm, Hp; reflexivity).
  pose proof (forEach_always timestamp (roots w) w0 root) as Hrep.
  pose proof (forEach_rootWork timestamp (roots w) w0) as Hw.
  destruct (forEach _ _ _) as [[|] wf]; simpl in *;
    [| destruct (repeat wf =? 0); discriminate Hc || discriminate].
  rewrite Hs0 in Hrep. specialize (Hrep eq_refl Hin Hm). rewrite <- Hs0 in Hrep.
  specialize (Hrep Hd).
  destruct Hw as (_ & _ & _ & _ & A5 & _ & A7 & _ & (work & A9 & N) & _ & _).
  destruct (Z.eqb_spec (repeat wf) 0) as [Hz | Hnz]; [lia |]. simpl.
  rewrite run_eq; simpl. splits; try congruence; try lia.
  exists (effectEvents Pre timestamp w ++ work ++ effectEvents Post timestamp wf). split.
  - rewrite A9, Ht0, <- !app_assoc. reflexivity.
  - rewrite !noTail_app, (noEffects_noTail _ N), !effectEvents_noTail by discriminate.
    reflexivity.
Qed.

(** X10.  A tick leaves alone the state of every root that is not due when
    the tick starts (inactive, presenting, or not in mode always with no
    pending frame), whatever the other roots of the set are and do. *)
Theorem loop_leaves_idle_root (timestamp : Q) (w : World) (s : StoreId) :
  due (stores w s) = false ->
  stores (snd (loop timestamp w)) s = stores w s.
Proof.
  intros Hd. rewrite loop_eq. cbv zeta.
  set (w0 := run Pre timestamp _).
  assert (H0 : stores w0 = stores w) by (subst w0; now rewrite run_eq).
  rewrite <- H0 in Hd |- *.
  pose proof (forEach_idle_store timestamp (roots w) w0 s Hd) as Hf.
  destruct (forEach _ _ _) as [c wf]; simpl in Hf.
  destruct (loop_end_fields timestamp wf) as (_ & _ & E & _).
  destruct c; [| exact Hf].
  destruct (repeat wf =? 0); simpl in *; rewrite E; exact Hf.
Qed.

(** X11.  While the one-shot flag is set, a tick whose first root lacks a
    stage throws.  Without an update stage nothing is installed.  With an
    update stage and no render stage the update stage receives one more
    [frameCallback] entry for the root at every such tick.  In both cases the
    flag stays set, only the pre-effects have been called, the driver is left
    running and the request made by the tick is left pending. *)
Theorem loop_throws_without_stage (timestamp : Q) (w : World) (root : Root)
    (rest : list Root) :
  init w = true ->
  roots w = root :: rest ->
  let s := rootStore root in
  let w' := snd (loop timestamp w) in
  let thrown :=
    fst (loop timestamp w) = Throw
    /\ init w' = true
    /\ running w' = true
    /\ rafPending w' = rafPending w ++ [rafNext w]
    /\ stores w' = stores w
    /\ trace w' = trace w ++ effectEvents Pre timestamp w in
  (getStage (stores w s) "update" = None -> thrown /\ stageHeap w' = stageHeap w)
  /\ (forall updateStage,
        getStage (stores w s) "update" = Some updateStage ->
        getStage (stores w s) "render" = None ->
        thrown
        /\ stageHeap w' = stageHeap (Stage_add updateStage frameCallback s w)
        /\ entryCount frameCallback s (stageHeap w' updateStage)
           = S (entryCount frameCallback s (stageHeap w updateStage))).
Proof.
  intros Hi Hr. cbv zeta. rewrite loop_eq. cbv zeta. rewrite Hr. simpl.
  unfold loopRoot, installStages. rewrite run_eq. simpl. rewrite Hi. split.
  - intros ->. simpl. splits; auto.
  - intros updateStage -> ->. simpl. splits; auto.
    rewrite fn_lookup_insert. unfold entryCount; simpl.
    rewrite List.filter_app, length_app; simpl. rewrite Nat.eqb_refl. simpl. lia.
Qed.

End TickMore.

(** One root without any stage, then one root with an update stage only:
    two ticks in a row leave two [frameCallback] entries. *)
Lemma loop_throws_without_stage_witness :
  fst (loop (clockOps := stoppedClock) 16 noStageWorld) = Throw
  /\ running (snd (loop (clockOps := stoppedClock) 16 noStageWorld)) = true
  /\ entryCount frameCallback 0%nat
       (stageHeap (snd (loop (clockOps := stoppedClock) 32
                          (snd (loop (clockOps := stoppedClock) 16 noRenderStageWorld))))
          0%nat) = 2%nat.
Proof.
  destruct (loop_throws_without_stage (clockOps := stoppedClock) 16 noStageWorld
              {| rootStore := 0%nat |} [] eq_refl eq_refl) as [H _].
  destruct (H eq_refl) as ((Hc & _ & Hr & _) & _).
  destruct (loop_throws_without_stage (clockOps := stoppedClock) 16 noRenderStageWorld
              {| rootStore := 0%nat |} [] eq_refl eq_refl) as [_ H1].
  destruct (H1 0%nat eq_refl eq_refl) as ((_ & Hi1 & _) & _ & Hn1).
  destruct (loop_throws_without_stage (clockOps := stoppedClock) 32
              (snd (loop (clockOps := stoppedClock) 16 noRenderStageWorld))
              {| rootStore := 0%nat |} [] Hi1 eq_refl) as [_ H2].
  destruct (H2 0%nat eq_refl eq_refl) as (_ & _ & Hn2).
  splits; [exact Hc | exact Hr |].
  etransitivity; [exact Hn2 |]. etransitivity; [exact (f_equal S Hn1) | reflexivity].
Defined.

(** Two roots, the first in mode always with no pending frame. *)
Lemma loop_always_keeps_running_witness :
  let w := alwaysAndDemand in
  let w' := snd (loop (clockOps := stoppedClock) 16 w) in
  1 <= repeat w'
  /\ running w' = true
  /\ rafPending w' = rafPending w ++ [rafNext w]
  /\ exists evs, trace w' = trace w ++ evs /\ noTail evs = true.
Proof.
  exact (loop_always_keeps_running (clockOps := stoppedClock) 16 alwaysAndDemand
           {| rootStore := 0%nat |}
           eq_refl (or_introl eq_refl) eq_refl eq_refl eq_refl).
Defined.

(** The second of two roots is on demand with no pending frame. *)
Lemma loop_leaves_idle_root_witness :
  stores (snd (loop (clockOps := stoppedClock) 16 (twoRoots 2 0))) 1%nat
  = stores (twoRoots 2 0) 1%nat.
Proof.
  exact (loop_leaves_idle_root (clockOps := stoppedClock) 16 (twoRoots 2 0) 1%nat eq_refl).
Defined.

(** ** The driver and the queue of the host *)

Lemma sameControl_refl w : sameControl w w.
Proof. unfold sameControl; splits; reflexivity. Qed.

Lemma sameControl_trans w1 w2 w3 :
  sameControl w1 w2 -> sameControl w2 w3 -> sameControl w1 w3.
Proof. unfold sameControl; intuition congruence. Qed.

Lemma run_control p timestamp w : sameControl w (run p timestamp w).
Proof. rewrite run_eq. unfold sameControl; splits; reflexivity. Qed.

(** [invalidate] with a state changes the counter, [running] and the queue
    at most. *)
Lemma invalidateState_static state frameCount w :
  let w' := invalidateState state frameCount w in
  globalEffects w' = globalEffects w
  /\ globalAfterEffects w' = globalAfterEffects w
  /\ globalTailEffects w' = globalTailEffects w
  /\ roots w' = roots w
  /\ stageHeap w' = stageHeap w
  /\ init w' = init w
  /\ repeat w' = repeat w
  /\ frame w' = frame w
  /\ trace w' = trace w.
Proof.
  cbv zeta. unfold invalidateState. destruct (_ || _ || _); [splits; reflexivity |].
  unfold modifyState; simpl. destruct (running w); splits; reflexivity.
Qed.

Lemma invalidateState_queueOk state frameCount w :
  queueOk w -> queueOk (invalidateState state frameCount w).
Proof.
  unfold queueOk, invalidateState. intros Hq.
  destruct (_ || _ || _); [exact Hq |].
  unfold modifyState; simpl. destruct (running w) eqn:Hr; simpl.
  - now rewrite Hr.
  - rewrite length_app, Hq. reflexivity.
Qed.

Lemma invalidate_queueOk state frameCount w :
  queueOk w -> queueOk (invalidate state frameCount w).
Proof.
  intros Hq. destruct state as [state |]; simpl; [now apply invalidateState_queueOk |].
  generalize (roots w) as l. intros l. revert w Hq.
  induction l as [|root l IH]; intros w Hq; simpl; [exact Hq |].
  apply IH, invalidateState_queueOk, Hq.
Qed.

Lemma invalidateAll_static l w :
  let w' := fold_left (fun w root => invalidateState (rootStore root) None w) l w in
  globalEffects w' = globalEffects w
  /\ globalAfterEffects w' = globalAfterEffects w
  /\ globalTailEffects w' = globalTailEffects w
  /\ roots w' = roots w
  /\ trace w' = trace w.
Proof.
  cbv zeta. revert w. induction l as [|root l IH]; intros w; simpl; [auto |].
  destruct (invalidateState_static (rootStore root) None w)
    as (A & B & C & D & _ & _ & _ & _ & E). cbv zeta in *.
  destruct (IH (invalidateState (rootStore root) None w)) as (A' & B' & C' & D' & E').
  splits; congruence.
Qed.

Lemma invalidate_static state frameCount w :
  let w' := invalidate state frameCount w in
  globalEffects w' = globalEffects w
  /\ globalAfterEffects w' = globalAfterEffects w
  /\ globalTailEffects w' = globalTailEffects w
  /\ roots w' = roots w
  /\ trace w' = trace w.
Proof.
  cbv zeta. destruct state as [state |]; simpl.
  - destruct (invalidateState_static state frameCount w) as (A & B & C & D & _ & _ & _ & _ & E).
    auto.
  - apply invalidateAll_static.
Qed.

Section Driver.

Context {clockOps : ClockOps}.

Lemma updateAll_control timestamp l w :
  sameControl w (fold_left (fun w root => snd (update timestamp (rootStore root) None w)) l w).
Proof.
  revert w; induction l as [|root l IH]; intros w; simpl; [apply sameControl_refl |].
  eapply sameControl_trans; [apply update_control | apply IH].
Qed.

Lemma advance_updates_control timestamp state xrFrame w :
  sameControl w
    match state with
    | None => fold_left (fun w root => snd (update timestamp (rootStore root) None w)) (roots w) w
    | Some state => snd (update timestamp state xrFrame w)
    end.
Proof. destruct state; [apply update_control | apply updateAll_control]. Qed.

Lemma advance_control timestamp runGlobalEffects state xrFrame w :
  sameControl w (advance timestamp runGlobalEffects state xrFrame w).
Proof.
  unfold advance. cbv zeta. destruct (default true runGlobalEffects).
  - eapply sameControl_trans; [| apply run_control].
    eapply sameControl_trans; [apply run_control | apply advance_updates_control].
  - apply advance_updates_control.
Qed.

(** How a tick leaves the driver and the queue. *)
Lemma loop_queue timestamp w :
  let w' := snd (loop timestamp w) in
  rafNext w' = S (rafNext w)
  /\ ((running w' = true /\ rafPending w' = rafPending w ++ [rafNext w])
      \/ (running w' = false
          /\ rafPending w'
             = List.filter (fun h => negb (Nat.eqb h (rafNext w))) (rafPending w ++ [rafNext w]))).
Proof.
  cbv zeta. rewrite loop_eq. cbv zeta.
  set (w0 := run Pre timestamp _).
  assert (H0 : running w0 = true /\ rafPending w0 = rafPending w ++ [rafNext w]
               /\ frame w0 = rafNext w /\ rafNext w0 = S (rafNext w))
    by (subst w0; rewrite run_eq; splits; reflexivity).
  destruct H0 as (R0 & Q0 & F0 & N0).
  pose proof (forEach_rootWork timestamp (roots w) w0) as Hw.
  destruct (forEach _ _ _) as [c wf]; simpl in Hw.
  destruct Hw as (_ & _ & _ & _ & A5 & A6 & A7 & A8 & _).
  destruct c; [| simpl; split; [congruence | left; split; congruence]].
  destruct (repeat wf =? 0); simpl; rewrite !run_eq; simpl.
  - split; [congruence | right]. split; [reflexivity |]. now rewrite A6, A7, F0, Q0.
  - split; [congruence | left; split; congruence].
Qed.

Lemma loop_static timestamp w :
  let w' := snd (loop timestamp w) in
  globalEffects w' = globalEffects w
  /\ globalAfterEffects w' = globalAfterEffects w
  /\ globalTailEffects w' = globalTailEffects w
  /\ roots w' = roots w.
Proof.
  cbv zeta. rewrite loop_eq. cbv zeta.
  set (w0 := run Pre timestamp _).
  assert (H0 : globalEffects w0 = globalEffects w
               /\ globalAfterEffects w0 = globalAfterEffects w
               /\ globalTailEffects w0 = globalTailEffects w /\ roots w0 = roots w)
    by (subst w0; rewrite run_eq; splits; reflexivity).
  destruct H0 as (E0 & E1 & E2 & E3).
  pose proof (forEach_rootWork timestamp (roots w) w0) as Hw.
  destruct (forEach _ _ _) as [c wf]; simpl in Hw.
  destruct Hw as (A1 & A2 & A3 & A4 & _).
  destruct c; [| simpl; splits; congruence].
  destruct (repeat wf =? 0); simpl; rewrite !run_eq; simpl; splits; congruence.
Qed.

Lemma fireFrame_queueOk timestamp w : queueOk w -> queueOk (snd (fireFrame timestamp w)).
Proof.
  unfold queueOk, fireFrame. intros Hq.
  destruct (rafPending w) as [|h pending] eqn:Hp; [simpl; now rewrite Hp |].
  assert (pending = []) as ->
    by (destruct (running w); simpl in Hq; [destruct pending; [reflexivity | discriminate]
                                           | discriminate]).
  destruct (loop_queue timestamp (set_raf [] (rafNext w) w)) as (_ & [[-> ->] | [-> ->]]);
    simpl; [reflexivity |]. now rewrite Nat.eqb_refl.
Qed.

Lemma call_queueOk w c : hostDriven c -> queueOk w -> queueOk (call w c).
Proof.
  destruct c; simpl; intros Hc Hq; try contradiction.
  - now apply fireFrame_queueOk.
  - now apply invalidate_queueOk.
  - destruct (advance_control timestamp runGlobalEffects state xrFrame w)
      as (_ & _ & _ & _ & _ & _ & Hr & _ & _ & Hp & _).
    unfold queueOk. now rewrite Hr, Hp.
  - unfold queueOk, createSubs; simpl. exact Hq.
  - unfold queueOk, unsubscribe; simpl. exact Hq.
Qed.

(** X12.  As long as [loop] is called by the host only, through the request
    it was handed to, the driver and the queue of the host agree after every
    call of [invalidate], [advance], a registration, a handle, or a frame of
    the host, a tick that throws included: exactly one request is pending
    while the driver is running and none while it is idle. *)
Theorem driver_queue_invariant (l : list Call) (w : World) :
  queueOk w ->
  Forall hostDriven l ->
  queueOk (calls l w).
Proof.
  intros Hq Hl. unfold calls. revert w Hq.
  induction Hl as [|c l Hc _ IH]; intros w Hq; simpl; [exact Hq |].
  apply IH, call_queueOk; assumption.
Qed.

(** X17.  The scheduler never changes the three arrays of effects nor the
    root set: only registrations and handles change the arrays, and nothing
    in this file changes the root set. *)
Theorem scheduler_keeps_registry_and_roots (c : Call) (w : World) :
  roots (call w c) = roots w
  /\ (isRegistry c = false ->
      globalEffects (call w c) = globalEffects w
      /\ globalAfterEffects (call w c) = globalAfterEffects w
      /\ globalTailEffects (call w c) = globalTailEffects w).
Proof.
  destruct c; simpl.
  - unfold fireFrame. destruct (rafPending w); [auto |].
    destruct (loop_static timestamp (set_raf l (rafNext w) w)) as (A & B & C & D). auto.
  - destruct (loop_static timestamp w) as (A & B & C & D). auto.
  - destruct (invalidate_static state frameCount w) as (A & B & C & D & _). auto.
  - destruct (advance_control timestamp runGlobalEffects state xrFrame w)
      as (A & B & C & D & _). auto.
  - split; [reflexivity | discriminate].
  - split; [reflexivity | discriminate].
Qed.

End Driver.

(** A root on demand is invalidated, the host fires, a frame is advanced by
    hand, everything is invalidated, the host fires twice. *)
Lemma driver_queue_invariant_witness :
  queueOk
    (calls (clockOps := stoppedClock)
       [CallInvalidate (Some 0%nat) (Some 2); CallFrame 16; CallAdvance 20 None None None;
        CallInvalidate None None; CallFrame 32; CallFrame 48; CallFrame 64]
       (oneRoot demand 0)).
Proof.
  apply (driver_queue_invariant (clockOps := stoppedClock)
           [CallInvalidate (Some 0%nat) (Some 2); CallFrame 16; CallAdvance 20 None None None;
            CallInvalidate None None; CallFrame 32; CallFrame 48; CallFrame 64]
           (oneRoot demand 0)).
  - reflexivity.
  - repeat constructor.
Defined.

(** ** Frames on demand *)

Section Demand.

Context {clockOps : ClockOps}.

(** One frame of the host for a single root on demand with [k] pending
    frames. *)
Lemma demand_fire_step timestamp w root k :
  demandReady w root k ->
  1 <= k ->
  let w' := snd (fireFrame timestamp w) in
  fst (fireFrame timestamp w) = Normal
  /\ (k = 1 -> framesOf w' (rootStore root) = 0 /\ running w' = false /\ rafPending w' = [])
  /\ (1 < k -> demandReady w' root (k - 1)).
Proof.
  intros (Hroots & Hinit & Hm & Ha & Hp & Hk & Hrun & Hq) Hk1. cbv zeta.
  unfold fireFrame. destruct (rafPending w) as [|h [|h' pending]] eqn:Hpend; try discriminate.
  clear Hq. set (w1 := set_raf [] (rafNext w) w).
  rewrite loop_eq. cbv zeta.
  set (w0 := run Pre timestamp _).
  assert (H0 : stores w0 = stores w /\ repeat w0 = 0 /\ init w0 = false
               /\ running w0 = true /\ rafPending w0 = [rafNext w]
               /\ frame w0 = rafNext w /\ roots w0 = [root])
    by (subst w0 w1; rewrite run_eq; splits; simpl; auto).
  destruct H0 as (S0 & R0 & I0 & Run0 & Q0 & F0 & Roots0).
  replace (roots w1) with [root] by (symmetry; exact Hroots).
  simpl. unfold loopRoot, installStages. rewrite I0.
  assert (Hdue : due (stores w0 (rootStore root)) = true).
  { rewrite S0. unfold due. rewrite Ha, Hm, Hp. unfold framesOf in Hk. rewrite Hk.
    simpl. destruct (Z.gtb_spec k 0); [reflexivity | lia]. }
  pose proof (renderRoot_repeat timestamp root w0) as Hrep.
  pose proof (renderRoot_rootWork timestamp root w0) as Hw.
  pose proof (renderRoot_config timestamp root w0 (rootStore root)) as Hcfg.
  assert (Hfr : framesOf (renderRoot timestamp root w0) (rootStore root) = k - 1).
  { unfold framesOf, renderRoot. rewrite Hdue.
    pose proof (update_stores_same timestamp (rootStore root) None w0) as Hs.
    destruct (update timestamp (rootStore root) None w0) as [n wu]. simpl in *.
    rewrite Hs, S0. unfold update_state; simpl. unfold framesOf in Hk. rewrite Hk. lia. }
  set (wf := renderRoot timestamp root w0) in *.
  rewrite Hdue, S0 in Hrep. unfold update_result in Hrep. rewrite Hm in Hrep.
  unfold framesOf in Hk. rewrite Hk, R0 in Hrep. simpl in Hrep.
  destruct Hw as (_ & _ & _ & A4 & A5 & A6 & A7 & _ & _ & A10 & _).
  destruct (A10 I0) as [If _].
  rewrite S0 in Hcfg. destruct Hcfg as (C1 & _ & C3 & _ & _ & C6 & _).
  destruct (Z.eqb_spec (repeat wf) 0) as [Hz | Hnz]; simpl; rewrite !run_eq;
    unfold framesOf in *; simpl.
  - split; [reflexivity |]. split; [| intros; lia].
    intros Hone. rewrite A6, A7, F0, Q0. simpl. rewrite Nat.eqb_refl.
    splits; [lia | reflexivity | reflexivity].
  - split; [reflexivity |]. split; [intros; lia |].
    intros Hlt. unfold demandReady, presenting, framesOf. simpl.
    splits; try congruence.
    + rewrite C3. exact Hp.
    + rewrite A7, Q0. reflexivity.
Qed.

Lemma demand_budget_gen ts :
  forall w root,
    demandReady w root (Z.of_nat (length ts)) ->
    ts <> [] ->
    let w' := calls (map CallFrame ts) w in
    framesOf w' (rootStore root) = 0
    /\ running w' = false
    /\ rafPending w' = []
    /\ (forall ts1 ts2,
          ts = ts1 ++ ts2 -> ts2 <> [] ->
          demandReady (calls (map CallFrame ts1) w) root (Z.of_nat (length ts2))).
Proof.
  induction ts as [|t ts IH]; intros w root Hready Hne; [congruence |].
  cbv zeta. unfold calls in *. simpl.
  pose proof (demand_fire_step t w root _ Hready) as Hstep.
  assert (Hk : 1 <= Z.of_nat (length (t :: ts))) by (simpl; lia).
  destruct (Hstep Hk) as (_ & Hlast & Hmore). clear Hstep.
  destruct ts as [|t' ts'].
  - destruct (Hlast eq_refl) as (A & B & C). simpl. splits; auto.
    intros ts1 ts2 Heq Hne2. destruct ts1 as [|x ts1]; simpl in *.
    + subst ts2. exact Hready.
    + injection Heq as _ Heq. destruct ts1; destruct ts2; simpl in *; congruence.
  - assert (Hlt : 1 < Z.of_nat (length (t :: t' :: ts'))) by (simpl; lia).
    specialize (Hmore Hlt).
    replace (Z.of_nat (length (t :: t' :: ts')) - 1) with (Z.of_nat (length (t' :: ts')))
      in Hmore by (simpl length; lia).
    destruct (IH _ root Hmore) as (A & B & C & D); [discriminate |].
    splits; auto.
    intros ts1 ts2 Heq Hne2. destruct ts1 as [|x ts1]; simpl in *.
    + subst ts2. exact Hready.
    + injection Heq as <- Heq. apply (D ts1 ts2); assumption.
Qed.

(** X8.  Frames on demand are spent one per frame of the host.  For a single
    root on demand with [k >= 1] pending frames, installed stage entries and
    a running driver, [k] frames of the host leave the counter at zero, the
    driver idle and the queue empty; before each of these frames the driver
    is running with its request pending, and the counter is the number of
    frames still to come. *)
Theorem demand_budget_spent (ts : list Q) (w : World) (root : Root) :
  demandReady w root (Z.of_nat (length ts)) ->
  ts <> [] ->
  let w' := calls (map CallFrame ts) w in
  framesOf w' (rootStore root) = 0
  /\ running w' = false
  /\ rafPending w' = []
  /\ (forall ts1 ts2,
        ts = ts1 ++ ts2 -> ts2 <> [] ->
        demandReady (calls (map CallFrame ts1) w) root (Z.of_nat (length ts2))).
Proof. apply demand_budget_gen. Qed.

End Demand.

(** Four frames are requested; after the first frame of the host three are
    left, and three more frames spend them. *)
Lemma demand_budget_spent_witness :
  let w := snd (fireFrame (clockOps := stoppedClock) 0 (requestedWorld 4)) in
  let w' := calls (clockOps := stoppedClock) (map CallFrame [16; 32; 48]%Q) w in
  framesOf w' 0%nat = 0 /\ running w' = false /\ rafPending w' = [].
Proof.
  cbv zeta.
  destruct (demand_budget_spent (clockOps := stoppedClock) [16; 32; 48]%Q
              (snd (fireFrame (clockOps := stoppedClock) 0 (requestedWorld 4)))
              {| rootStore := 0%nat |}) as (A & B & C & _).
  - unfold demandReady. splits; reflexivity.
  - discriminate.
  - auto.
Defined.

(** ** [invalidate], continued *)

Lemma invalidateState_eq state frameCount w :
  invalidateState state frameCount w
  = if eligible (stores w state)
    then let w1 := modifyState state
                     (fun st => set_frames (Z.min 60 (frames (internal st) + default 1 frameCount)) st)
                     w in
         if running w then w1 else snd (requestAnimationFrame (set_running true w1))
    else w.
Proof.
  unfold invalidateState, eligible. destruct (_ || _ || _); reflexivity.
Qed.

Lemma invalidateState_stores state frameCount w x :
  stores (invalidateState state frameCount w) x
  = if eligible (stores w state) && bool_decide (x = state)
    then set_frames (Z.min 60 (frames (internal (stores w state)) + default 1 frameCount))
           (stores w state)
    else stores w x.
Proof.
  rewrite invalidateState_eq. destruct (eligible _); simpl; [| reflexivity].
  unfold modifyState.
  destruct (running w); simpl; unfold insert, fn_insert;
    destruct (decide (state = x)) as [<- | Hne].
  all: try (rewrite bool_decide_eq_true_2 by reflexivity; reflexivity).
  all: rewrite bool_decide_eq_false_2 by congruence; reflexivity.
Qed.

Lemma invalidateState_config state frameCount w x :
  sameConfig (stores w x) (stores (invalidateState state frameCount w) x).
Proof.
  rewrite invalidateState_stores.
  destruct (eligible _ && bool_decide _) eqn:H; [| apply sameConfig_refl].
  apply andb_true_iff in H as [_ H]. apply bool_decide_eq_true in H as ->.
  unfold sameConfig; splits; reflexivity.
Qed.

Lemma sameConfig_eligible st st' : sameConfig st st' -> eligible st' = eligible st.
Proof.
  intros (A & _ & B & _ & _ & C & _). unfold eligible, presenting. now rewrite A, B, C.
Qed.

Lemma invalidateState_running state frameCount w :
  running (invalidateState state frameCount w) = running w || eligible (stores w state).
Proof.
  rewrite invalidateState_eq. destruct (eligible _); [| now rewrite orb_false_r].
  cbv zeta. unfold modifyState. destruct (running w) eqn:Hr; simpl; rewrite ?Hr; reflexivity.
Qed.

(** X13.  Requests for frames add up under the bound: for a root that
    [invalidate] does not ignore, a request for [a] frames followed by a
    request for [b >= 0] frames leaves min(60, counter + a + b) when the
    first sum is not negative, the driver running, and the second request
    asks nothing of the host. *)
Theorem invalidate_accumulates (state : StoreId) (a b : Z) (w : World) :
  eligible (stores w state) = true ->
  0 <= b ->
  let w1 := invalidate (Some state) (Some a) w in
  let w2 := invalidate (Some state) (Some b) w1 in
  framesOf w2 state = Z.min 60 (Z.min 60 (framesOf w state + a) + b)
  /\ (0 <= framesOf w state + a -> framesOf w2 state = Z.min 60 (framesOf w state + a + b))
  /\ running w2 = true
  /\ rafPending w2 = rafPending w1
  /\ rafNext w2 = rafNext w1.
Proof.
  intros He Hb. cbv zeta. simpl.
  pose proof (invalidateState_config state (Some a) w state) as Hc.
  pose proof (invalidateState_running state (Some a) w) as Hr.
  pose proof (invalidateState_stores state (Some a) w state) as Hs.
  set (w1 := invalidateState state (Some a) w) in *.
  rewrite He, bool_decide_eq_true_2 in Hs by reflexivity. simpl in Hs.
  rewrite He, orb_true_r in Hr.
  assert (He1 : eligible (stores w1 state) = true)
    by (rewrite (sameConfig_eligible _ _ Hc); exact He).
  assert (Hf : framesOf (invalidateState state (Some b) w1) state
               = Z.min 60 (Z.min 60 (framesOf w state + a) + b)).
  { unfold framesOf. rewrite invalidateState_stores, He1, bool_decide_eq_true_2 by reflexivity.
    simpl. rewrite Hs. reflexivity. }
  splits.
  - exact Hf.
  - intros Ha. rewrite Hf. lia.
  - rewrite invalidateState_running, Hr. reflexivity.
  - rewrite invalidateState_eq, He1, Hr. reflexivity.
  - rewrite invalidateState_eq, He1, Hr. reflexivity.
Qed.

Lemma invalidateAll_spec l :
  forall w,
    List.NoDup (map rootStore l) ->
    let w' := fold_left (fun w root => invalidateState (rootStore root) None w) l w in
    (forall x, stores w' x
               = if existsb (fun root => bool_decide (x = rootStore root)) l
                    && eligible (stores w x)
                 then set_frames (Z.min 60 (frames (internal (stores w x)) + 1)) (stores w x)
                 else stores w x)
    /\ running w' = running w || existsb (fun root => eligible (stores w (rootStore root))) l.
Proof.
  induction l as [|root l IH]; intros w Hnd; cbv zeta; simpl.
  - split; [reflexivity | now rewrite orb_false_r].
  - inversion Hnd as [|? ? Hnotin Hnd']; subst.
    destruct (IH (invalidateState (rootStore root) None w) Hnd') as [Hs Hr].
    cbv zeta in Hs, Hr.
    assert (Hel : forall x, eligible (stores (invalidateState (rootStore root) None w) x)
                            = eligible (stores w x))
      by (intros x; apply sameConfig_eligible, invalidateState_config).
    split.
    + intros x. rewrite Hs, Hel, invalidateState_stores.
      destruct (decide (x = rootStore root)) as [-> | Hne].
      * rewrite bool_decide_eq_true_2 by reflexivity. simpl.
        replace (existsb _ l) with false; [simpl; rewrite andb_true_r; reflexivity |].
        symmetry. apply not_true_is_false. intros Hex.
        apply existsb_exists in Hex as (r & Hin & Hx). apply bool_decide_eq_true in Hx.
        apply Hnotin. apply in_map_iff. exists r. split; [symmetry; exact Hx | exact Hin].
      * rewrite (bool_decide_eq_false_2 (x = rootStore root)) by assumption.
        rewrite andb_false_r. simpl. reflexivity.
    + rewrite Hr, invalidateState_running.
      rewrite <- orb_assoc. f_equal. f_equal.
      apply eq_iff_eq_true. rewrite !existsb_exists.
      split; intros (r & Hin & Hx); exists r; (split; [exact Hin |]);
        [rewrite <- Hel | rewrite Hel]; exact Hx.
Qed.

(** X14.  [invalidate()] on a root set of distinct roots grants one frame,
    under the bound of 60, to every root of the set that is active, not
    presenting and not in mode never, and leaves every other root state as it
    was; the driver is running afterwards exactly when it was running before
    or one root of the set was granted a frame. *)
Theorem invalidate_all_grants_one (w : World) :
  List.NoDup (map rootStore (roots w)) ->
  let w' := invalidate None None w in
  (forall root, In root (roots w) ->
     stores w' (rootStore root)
     = if eligible (stores w (rootStore root))
       then set_frames (Z.min 60 (framesOf w (rootStore root) + 1)) (stores w (rootStore root))
       else stores w (rootStore root))
  /\ (forall x, ~ In x (map rootStore (roots w)) -> stores w' x = stores w x)
  /\ running w'
     = running w || existsb (fun root => eligible (stores w (rootStore root))) (roots w).
Proof.
  intros Hnd. cbv zeta. unfold invalidate.
  destruct (invalidateAll_spec (roots w) w Hnd) as [Hs Hr]. cbv zeta in Hs, Hr.
  splits.
  - intros root Hin. rewrite Hs.
    replace (existsb _ (roots w)) with true; [reflexivity |].
    symmetry. apply existsb_exists. exists root. split; [exact Hin |].
    now apply bool_decide_eq_true_2.
  - intros x Hx. rewrite Hs.
    replace (existsb _ (roots w)) with false; [reflexivity |].
    symmetry. apply not_true_is_false. intros Hex.
    apply existsb_exists in Hex as (r & Hin & Hxr). apply bool_decide_eq_true in Hxr.
    apply Hx. apply in_map_iff. exists r. split; [symmetry; exact Hxr | exact Hin].
  - exact Hr.
Qed.

(** Fifty frames and then twenty stop at the bound. *)
Lemma invalidate_accumulates_witness :
  let w1 := invalidate (Some 0%nat) (Some 50) (oneRoot demand 0) in
  let w2 := invalidate (Some 0%nat) (Some 20) w1 in
  framesOf w2 0%nat = 60 /\ running w2 = true /\ rafPending w2 = [1%nat].
Proof.
  cbv zeta.
  destruct (invalidate_accumulates 0%nat 50 20 (oneRoot demand 0) eq_refl)
    as (_ & A & B & C & _); [lia |].
  splits.
  - etransitivity; [apply A; simpl; lia | reflexivity].
  - exact B.
  - etransitivity; [exact C | reflexivity].
Defined.

(** Two roots on demand holding 59 and 60 frames. *)
Lemma invalidate_all_grants_one_witness :
  framesOf (invalidate None None (twoRoots 59 60)) 0%nat = 60
  /\ framesOf (invalidate None None (twoRoots 59 60)) 1%nat = 60
  /\ running (invalidate None None (twoRoots 59 60)) = true.
Proof.
  destruct (invalidate_all_grants_one (twoRoots 59 60)) as (A & _ & C).
  - repeat constructor; simpl; intuition discriminate.
  - splits.
    + exact (f_equal (fun st => frames (internal st))
               (A {| rootStore := 0%nat |} (or_introl eq_refl))).
    + exact (f_equal (fun st => frames (internal st))
               (A {| rootStore := 1%nat |} (or_intror (or_introl eq_refl)))).
    + exact C.
Defined.

(** ** [advance], continued *)

Lemma flat_map_ext_in {A B : Type} (f g : A -> list B) (l : list A) :
  (forall x, In x l -> f x = g x) -> flat_map f l = flat_map g l.
Proof.
  induction l as [|x l IH]; intros H; simpl; [reflexivity |].
  rewrite (H x (or_introl eq_refl)), IH; [reflexivity |].
  intros y Hy. apply H. now right.
Qed.

Section AdvanceMore.

Context {clockOps : ClockOps}.

Lemma rootEvents_after_update timestamp s w root :
  rootStore root <> s ->
  rootEvents timestamp (snd (update timestamp s None w)) root = rootEvents timestamp w root.
Proof.
  intros Hne. unfold rootEvents.
  destruct (update_control timestamp s None w) as (_ & _ & _ & _ & -> & _).
  rewrite update_stores_other by assumption.
  apply pipelineEvents_view, sameConfig_view. intros x. apply update_config.
Qed.

(** [update] for every root of a list of distinct roots, in order. *)
Lemma updateAll_spec timestamp l :
  forall w,
    List.NoDup (map rootStore l) ->
    let w' := fold_left (fun w root => snd (update timestamp (rootStore root) None w)) l w in
    trace w' = trace w ++ flat_map (rootEvents timestamp w) l
    /\ (forall root, In root l ->
          stores w' (rootStore root) = update_state timestamp (stores w (rootStore root)))
    /\ (forall x, ~ In x (map rootStore l) -> stores w' x = stores w x).
Proof.
  induction l as [|r l IH]; intros w Hnd; cbv zeta; simpl.
  - splits; [now rewrite app_nil_r | contradiction | reflexivity].
  - inversion Hnd as [|? ? Hnotin Hnd']; subst.
    destruct (IH (snd (update timestamp (rootStore r) None w)) Hnd') as (Ht & Hs & Ho).
    cbv zeta in Ht, Hs, Ho. splits.
    + rewrite Ht, update_trace, <- app_assoc. f_equal. f_equal.
      apply flat_map_ext_in. intros root Hin. apply rootEvents_after_update.
      intros Heq. apply Hnotin. apply in_map_iff. exists root. split; [exact Heq | exact Hin].
    + intros root [<- | Hin].
      * rewrite Ho by exact Hnotin. apply update_stores_same.
      * rewrite Hs by exact Hin. f_equal. apply update_stores_other.
        intros Heq. apply Hnotin. apply in_map_iff. exists root. split; [exact Heq | exact Hin].
    + intros x Hx. rewrite Ho by (intros H; apply Hx; right; exact H).
      apply update_stores_other. intros ->. apply Hx. left. reflexivity.
Qed.

(** X15.  [advance(timestamp, true)] without a state runs [update] for every
    root of the root set, in the order of the set and whatever their mode,
    counter, activity or presentation: over distinct roots the calls are the
    pre-effects, the pipeline of each root in turn (with no frame handed to
    it, whatever frame [advance] was given), and the post-effects; each root
    of the set has its clock and counter updated and no other root state is
    touched. *)
Theorem advance_all_roots (timestamp : Q) (xrFrame : option XRFrame) (w : World) :
  List.NoDup (map rootStore (roots w)) ->
  let w' := advance timestamp (Some true) None xrFrame w in
  trace w' = trace w
             ++ effectEvents Pre timestamp w
             ++ flat_map (rootEvents timestamp w) (roots w)
             ++ effectEvents Post timestamp w
  /\ (forall root, In root (roots w) ->
        stores w' (rootStore root) = update_state timestamp (stores w (rootStore root)))
  /\ (forall x, ~ In x (map rootStore (roots w)) -> stores w' x = stores w x).
Proof.
  intros Hnd. cbv zeta. unfold advance; simpl.
  rewrite (run_eq Pre). 
  set (w1 := set_trace (trace w ++ effectEvents Pre timestamp w) w).
  change (roots w1) with (roots w).
  destruct (updateAll_spec timestamp (roots w) w1 Hnd) as (Ht & Hs & Ho).
  cbv zeta in Ht, Hs, Ho.
  pose proof (updateAll_control timestamp (roots w) w1) as (_ & C2 & _).
  set (w2 := fold_left _ (roots w) w1) in *.
  rewrite run_eq; simpl. splits.
  - rewrite Ht. subst w1; simpl.
    replace (effectEvents Post timestamp w2) with (effectEvents Post timestamp w)
      by (unfold effectEvents; simpl; now rewrite C2).
    rewrite <- !app_assoc. reflexivity.
  - exact Hs.
  - exact Ho.
Qed.

(** X16.  [advance] called with [runGlobalEffects] false calls no global
    effect at all: with a state its calls are exactly the pipeline of that
    root, and without one they are calls of stage callbacks only. *)
Theorem advance_without_effects (timestamp : Q) (state : option StoreId)
    (xrFrame : option XRFrame) (w : World) :
  let w' := advance timestamp (Some false) state xrFrame w in
  (exists evs, trace w' = trace w ++ evs /\ noEffects evs = true)
  /\ (forall s, state = Some s ->
        trace w' = trace w ++ pipelineEvents (stores w) (stageHeap w)
                                (update_delta timestamp (stores w s)) xrFrame
                                (stages (internal (stores w s)))).
Proof.
  cbv zeta. unfold advance; simpl. split.
  - destruct (advance_updates_rootWork timestamp state xrFrame w)
      as (_ & _ & _ & _ & _ & _ & _ & _ & H & _). exact H.
  - intros s ->. apply update_trace.
Qed.

End AdvanceMore.

(** Two roots on demand with no pending frame, after a tick that installed
    the entries of root 0: both are advanced. *)
Lemma advance_all_roots_witness :
  let w := snd (loop (clockOps := stoppedClock) 8 (twoRoots 0 0)) in
  let w' := advance (clockOps := stoppedClock) 16 (Some true) None (Some 5%nat) w in
  trace w' = trace w
             ++ effectEvents Pre 16 w
             ++ flat_map (rootEvents (clockOps := stoppedClock) 16 w) (roots w)
             ++ effectEvents Post 16 w
  /\ trace w' = [EvSubscription 7%nat 0%nat (Qmin 0 (1 # 10)) None; EvRender 0%nat].
Proof.
  cbv zeta.
  destruct (advance_all_roots (clockOps := stoppedClock) 16 (Some 5%nat)
              (snd (loop (clockOps := stoppedClock) 8 (twoRoots 0 0)))) as (A & _ & _).
  - repeat constructor; simpl; intuition discriminate.
  - split; [exact A | reflexivity].
Defined.

(** ** A tick with nothing to do *)

Section NothingDue.

Context {clockOps : ClockOps}.

Lemma forEach_nothing_due timestamp l w :
  init w = false ->
  (forall root, In root l -> due (stores w (rootStore root)) = false) ->
  forEach (loopRoot timestamp) l w = (Normal, w).
Proof.
  intros Hi. induction l as [|root l IH]; intros Hd; simpl; [reflexivity |].
  unfold loopRoot at 1, installStages, renderRoot.
  rewrite Hi, (Hd root (or_introl eq_refl)).
  apply IH. intros r Hr. apply Hd. now right.
Qed.

(** X9.  Once the stage entries are installed, a tick that finds no root due
    calls the pre-effects, the post-effects and the tail effects, in this
    order and nothing else, leaves [repeat] at zero and the driver idle,
    cancels the request it made, and writes to no root state and no stage. *)
Theorem loop_nothing_due (timestamp : Q) (w : World) :
  init w = false ->
  (forall root, In root (roots w) -> due (stores w (rootStore root)) = false) ->
  Forall (fun h => (h < rafNext w)%nat) (rafPending w) ->
  let w' := snd (loop timestamp w) in
  fst (loop timestamp w) = Normal
  /\ trace w' = trace w ++ effectEvents Pre timestamp w ++ effectEvents Post timestamp w
                ++ effectEvents Tail timestamp w
  /\ repeat w' = 0
  /\ running w' = false
  /\ rafPending w' = rafPending w
  /\ stores w' = stores w
  /\ stageHeap w' = stageHeap w.
Proof.
  intros Hi Hd Hq. cbv zeta. rewrite loop_eq. cbv zeta.
  set (w0 := run Pre timestamp _).
  assert (H0 : init w0 = false /\ stores w0 = stores w)
    by (subst w0; rewrite run_eq; split; [exact Hi | reflexivity]).
  destruct H0 as [Hi0 Hs0].
  rewrite (forEach_nothing_due timestamp (roots w) w0 Hi0)
    by (intros root Hin; rewrite Hs0; now apply Hd).
  subst w0. rewrite !run_eq. simpl. rewrite ?run_eq. simpl.
  splits; try reflexivity.
  - unfold effectEvents; simpl. rewrite <- !app_assoc. reflexivity.
  - apply filter_fresh, Hq.
Qed.

End NothingDue.

(** Two roots without a pending frame and one effect of each kind. *)
Lemma loop_nothing_due_witness :
  let w' := snd (loop (clockOps := stoppedClock) 16 settledWorld) in
  trace w' = [EvEffect Pre 11%nat 16; EvEffect Post 22%nat 16; EvEffect Tail 33%nat 16]
  /\ running w' = false
  /\ rafPending w' = [].
Proof.
  cbv zeta.
  destruct (loop_nothing_due (clockOps := stoppedClock) 16 settledWorld)
    as (_ & A & _ & B & C & _).
  - reflexivity.
  - intros root [<- | [<- | []]]; reflexivity.
  - constructor.
  - splits; [etransitivity; [exact A | reflexivity] | exact B | exact C].
Defined.
